(** * Compute-unit mask sweep driver ([scripts/test_cu_mask.py])

    A shallow embedding of the mask allocator ([get_cu_mask]), of the
    configuration builder ([generate_config], [cu_mask_to_hex_string]) and of
    the sweep loop of the script, with the properties of the specification
    stated over them.

    Python integers are unbounded, so masks are [Z]; the bit operators of the
    script are [Z.land], [Z.lor], [Z.lnot], [Z.shiftl].  The topology list that
    the striped allocator consumes is a [list Z] read and written by index,
    with Python's negative indices written out.  The [while] loop of the
    striped allocator has no exit when every group is empty, so it is run on
    fuel, and running out of fuel is an outcome of its own. *)

From Stdlib Require Import ZArith String Ascii Bool Lia DecimalString.
From stdpp Require Import base list.

Local Open Scope Z_scope.

(** ** Outcomes of a Python computation *)

Inductive exn : Type :=
| IndexError
| NameError (name : string)
| OSError.

Inductive outcome (A : Type) : Type :=
| Ret (a : A)            (* normal completion *)
| Raise (e : exn)        (* an uncaught exception *)
| Exit (code : Z)        (* [exit(code)] *)
| OutOfFuel.             (* the loop was still running when the fuel ran out *)

Arguments Ret {A} a.
Arguments Raise {A} e.
Arguments Exit {A} code.
Arguments OutOfFuel {A}.

Definition bind {A B : Type} (m : outcome A) (k : A -> outcome B) : outcome B :=
  match m with
  | Ret a => k a
  | Raise e => Raise e
  | Exit c => Exit c
  | OutOfFuel => OutOfFuel
  end.

Declare Scope outcome_scope.
Delimit Scope outcome_scope with outcome.
Notation "x <- m ;; k" := (bind m (fun x => k))
  (at level 100, m at next level, right associativity) : outcome_scope.

(** ** Bits *)

Module Bits.

(** Number of set bits of a positive number. *)
Fixpoint pos_popcount (p : positive) : Z :=
  match p with
  | xH => 1
  | xO q => pos_popcount q
  | xI q => 1 + pos_popcount q
  end.

(** Number of set bits of a non-negative integer (0 on the negative ones,
    which have infinitely many). *)
Definition popcount (m : Z) : Z :=
  match m with
  | Zpos p => pos_popcount p
  | _ => 0
  end.

(** [mask & (-mask)]: the rightmost set bit of [mask]. *)
Definition lowbit (mask : Z) : Z := Z.land mask (- mask).

(** A 64-bit mask. *)
Definition is_mask64 (m : Z) : bool := (0 <=? m) && (m <? 2 ^ 64).

End Bits.
Import Bits.

(** ** Python lists indexed by integers *)

Module PyList.

(** The position an index [i] denotes in a list of length [n]: [i] itself
    when [0 <= i < n], [i + n] when [-n <= i < 0], none otherwise. *)
Definition resolve (n : nat) (i : Z) : option nat :=
  if (0 <=? i) && (i <? Z.of_nat n) then Some (Z.to_nat i)
  else if (- Z.of_nat n <=? i) && (i <? 0) then Some (Z.to_nat (i + Z.of_nat n))
  else None.

(** [l[i]] *)
Definition getitem (l : list Z) (i : Z) : outcome Z :=
  match resolve (length l) i with
  | Some k => match l !! k with Some x => Ret x | None => Raise IndexError end
  | None => Raise IndexError
  end.

(** [l[i] = x] *)
Definition setitem (l : list Z) (i : Z) (x : Z) : outcome (list Z) :=
  match resolve (length l) i with
  | Some k => Ret (<[k := x]> l)
  | None => Raise IndexError
  end.

(** [len(l)] *)
Definition len (l : list Z) : Z := Z.of_nat (length l).

End PyList.

(** ** The external topology module [pysmctrl]

    The module is imported by the script and is not part of it: it is a
    parameter of the model.  [get_gpc_info dev] is the list of per-GPC masks
    of TPCs (a new list at every call), [get_tpc_info dev] the number of
    TPCs, and [truthy] the truth value of the module object in the tests
    [if pysmctrl]. *)

Record pysmctrl_module : Type := {
  get_gpc_info : Z -> list Z;
  get_tpc_info : Z -> Z;
  truthy : bool
}.

(** ** The mask allocator *)

(** [for b in range(active_cus): res = res << 1; res |= 1] *)
Fixpoint contiguous_loop (iters : nat) (res : Z) : Z :=
  match iters with
  | O => res
  | S k => contiguous_loop k (Z.lor (Z.shiftl res 1) 1)
  end.

(** The inner loop of the striped path,
<<
    next_bit = 0
    while next_bit == 0:
        mask = info[next_gpc]
        next_bit = mask & (-mask)
        next_gpc = (next_gpc + 1) % len(info)
>>
    returning [(next_bit, next_gpc)].  One unit of fuel is one execution of
    the body. *)
Fixpoint scan (fuel : nat) (info : list Z) (next_gpc : Z) : outcome (Z * Z) :=
  match fuel with
  | O => OutOfFuel
  | S fuel' =>
      (mask <- PyList.getitem info next_gpc ;;
       let next_bit := lowbit mask in
       let next_gpc := (next_gpc + 1) mod PyList.len info in
       if next_bit =? 0 then scan fuel' info next_gpc
       else Ret (next_bit, next_gpc))%outcome
  end.

(** The variables of the striped path: the consumed topology, the cursor and
    the accumulated mask. *)
Record striped_state : Type := {
  info : list Z;
  next_gpc : Z;
  res : Z
}.

(** One iteration of [for b in range(active_cus)] on the striped path. *)
Definition striped_step (fuel : nat) (st : striped_state) : outcome striped_state :=
  (found <- scan fuel (info st) (next_gpc st) ;;
   let '(next_bit, next_gpc) := found in
   (* Add to mask of enabled TPCs *)
   let res := Z.lor (res st) next_bit in
   (* Remove that TPC from the available list *)
   old <- PyList.getitem (info st) (next_gpc - 1) ;;
   info <- PyList.setitem (info st) (next_gpc - 1) (old - next_bit) ;;
   Ret {| info := info; next_gpc := next_gpc; res := res |})%outcome.

Fixpoint striped_loop (fuel : nat) (iters : nat) (st : striped_state)
  : outcome striped_state :=
  match iters with
  | O => Ret st
  | S k => (st' <- striped_step fuel st ;; striped_loop fuel k st')%outcome
  end.

(** [get_cu_mask(active_cus, total_cus, striped, dev)].  [range(n)] has
    [Z.to_nat n] elements (none when [n] is negative). *)
Definition get_cu_mask (pysmctrl : pysmctrl_module) (fuel : nat)
    (active_cus total_cus : Z) (striped : bool) (dev : Z) : outcome Z :=
  if negb striped then
    Ret (Z.lnot (contiguous_loop (Z.to_nat active_cus) 0))
  else
    (st <- striped_loop fuel (Z.to_nat active_cus)
             {| info := get_gpc_info pysmctrl dev; next_gpc := 0; res := 0 |} ;;
     Ret (Z.lnot (res st)))%outcome.

(** ** Formatting: [%016x], [bin], [str.count], [str], base-16 decoding *)

Module Fmt.

Local Open Scope string_scope.
Local Open Scope Z_scope.

Definition hex_char (d : Z) : ascii :=
  match d with
  | 0 => "0" | 1 => "1" | 2 => "2" | 3 => "3" | 4 => "4" | 5 => "5"
  | 6 => "6" | 7 => "7" | 8 => "8" | 9 => "9" | 10 => "a" | 11 => "b"
  | 12 => "c" | 13 => "d" | 14 => "e" | _ => "f"
  end%char.

(** The [k] low hexadecimal digits of [n], most significant first. *)
Fixpoint nibbles (k : nat) (n : Z) : string :=
  match k with
  | O => ""
  | S k' => nibbles k' (n / 16) ++ String (hex_char (n mod 16)) ""
  end.

(** The number of hexadecimal digits of [n >= 0] (one for 0). *)
Definition hex_width (n : Z) : nat := Z.to_nat (Z.log2 n / 4 + 1).

Fixpoint zeros (k : nat) : string :=
  match k with
  | O => ""
  | S k' => String "0" (zeros k')
  end.

(** ["%016x" % n]: the digits of [|n|] without leading zeros, padded with
    zeros on the left to 16 characters, the sign included and first. *)
Definition format_016x (n : Z) : string :=
  if n <? 0 then
    let digits := nibbles (hex_width (- n)) (- n) in
    String "-" (zeros (15 - String.length digits) ++ digits)
  else
    let digits := nibbles (hex_width n) n in
    zeros (16 - String.length digits) ++ digits.

Fixpoint pos_bin (p : positive) (acc : string) : string :=
  match p with
  | xH => String "1" acc
  | xO q => pos_bin q (String "0" acc)
  | xI q => pos_bin q (String "1" acc)
  end.

(** [bin(x)] *)
Definition bin (x : Z) : string :=
  match x with
  | Z0 => "0b0"
  | Zpos p => "0b" ++ pos_bin p ""
  | Zneg p => "-0b" ++ pos_bin p ""
  end.

(** [s.count(c)] for a one-character [c]. *)
Fixpoint count (s : string) (c : ascii) : Z :=
  match s with
  | EmptyString => 0
  | String a s' => (if Ascii.eqb a c then 1 else 0) + count s' c
  end.

(** [str(n)] and ["%d" % n] *)
Definition str (n : Z) : string := NilZero.string_of_int (Z.to_int n).

(** The value of a hexadecimal digit, from its character code: [0-9],
    [a-f] or [A-F]. *)
Definition hex_value (c : ascii) : option Z :=
  let code := Z.of_nat (nat_of_ascii c) in
  if (48 <=? code) && (code <=? 57) then Some (code - 48)
  else if (97 <=? code) && (code <=? 102) then Some (code - 87)
  else if (65 <=? code) && (code <=? 70) then Some (code - 55)
  else None.

Fixpoint decode_hex_from (acc : Z) (s : string) : option Z :=
  match s with
  | EmptyString => Some acc
  | String c s' =>
      match hex_value c with
      | Some d => decode_hex_from (acc * 16 + d) s'
      | None => None
      end
  end.

(** Base-16 decoding of a non-empty string of hexadecimal digits. *)
Definition decode_hex (s : string) : option Z :=
  match s with
  | EmptyString => None
  | _ => decode_hex_from 0 s
  end.

Definition is_hex_digit (c : ascii) : bool :=
  match hex_value c with Some _ => true | None => false end.

Fixpoint all_chars (f : ascii -> bool) (s : string) : bool :=
  match s with
  | EmptyString => true
  | String c s' => f c && all_chars f s'
  end.

End Fmt.

(** ** JSON values *)

Unset Elimination Schemes.
Inductive json : Type :=
| JInt (n : Z)
| JBool (b : bool)
| JStr (s : string)
| JList (items : list json)
| JDict (members : list (string * json)).
Set Elimination Schemes.

(** The value of member [key] of a dict. *)
Fixpoint assoc (key : string) (members : list (string * json)) : option json :=
  match members with
  | [] => None
  | (k, v) :: rest => if String.eqb k key then Some v else assoc key rest
  end.

Definition member (key : string) (j : json) : option json :=
  match j with
  | JDict members => assoc key members
  | _ => None
  end.

(** ** Building the configuration *)

Section Config.

Local Open Scope string_scope.
Local Open Scope Z_scope.

(** [cu_mask_to_hex_string(int_cu_mask)] *)
Definition cu_mask_to_hex_string (int_cu_mask : Z) : string :=
  Fmt.format_016x (Z.land int_cu_mask 0xffffffffffffffff).

Definition plugin_config (cu_mask : Z) (striped : bool) : json :=
  let active_cu_count := Fmt.count (Fmt.bin (Z.lnot cu_mask)) "1" in
  let hex_mask := cu_mask_to_hex_string cu_mask in
  JDict [
    ("label", JStr (Fmt.str active_cu_count));
    ("log_name", JStr ("cu_mask_" ++
                       (if striped then "striped_" ++ hex_mask else hex_mask) ++
                       ".json"));
    ("filename", JStr "./bin/matrix_multiply.so");
    ("thread_count", JList [JInt 32; JInt 32]);
    ("block_count", JInt 1);
    ("sm_mask", JStr hex_mask);
    ("data_size", JInt 0);
    ("additional_info", JDict [
       ("matrix_width", JInt 1024);
       ("skip_copy", JBool true)
    ])
  ].

(** [generate_config(cu_mask, striped)].  The script returns
    [json.dumps(overall_config)], the text of this value; the model keeps
    the value (the order in which [json.dumps] writes the members of a dict
    is not fixed by the script). *)
Definition generate_config (cu_mask : Z) (striped : bool) : json :=
  let name := "Compute Unit Count vs. Performance" in
  let name := if striped then name ++ " (striped)" else name in
  JDict [
    ("name", JStr name);
    ("max_iterations", JInt 100);
    ("max_time", JInt 0);
    ("cuda_device", JInt 0);
    ("pin_cpus", JBool true);
    ("do_warmup", JBool true);
    ("benchmarks", JList [plugin_config cu_mask striped])
  ].

End Config.

(** ** The script as a program over its globals and the outside world *)

(** What the Runner subprocess does with a configuration: it cannot be
    started ([subprocess.Popen] raises), or it runs and exits with a status. *)
Inductive proc_result : Type :=
| LaunchFailed
| Exited (status : Z).

(** What the script does to the outside world. *)
Inductive event : Type :=
| Stdout (text : string)                     (* [print(text)] *)
| RunnerRun (config : json) (status : Z).    (* Runner started, fed, waited for *)

(** The module-level variables the script assigns ([None]: not bound yet) and
    the events so far, oldest first. *)
Record world : Type := {
  cu_count : option Z;
  cu_mask : option Z;
  events : list event
}.

Definition prog (A : Type) : Type := world -> world * outcome A.

Definition pret {A : Type} (a : A) : prog A := fun w => (w, Ret a).

Definition pbind {A B : Type} (m : prog A) (k : A -> prog B) : prog B :=
  fun w =>
    match m w with
    | (w', Ret a) => k a w'
    | (w', Raise e) => (w', Raise e)
    | (w', Exit c) => (w', Exit c)
    | (w', OutOfFuel) => (w', OutOfFuel)
    end.

Declare Scope prog_scope.
Delimit Scope prog_scope with prog.
Notation "x <- m ;; k" := (pbind m (fun x => k))
  (at level 100, m at next level, right associativity) : prog_scope.
Notation "m ;;; k" := (pbind m (fun _ => k))
  (at level 100, right associativity) : prog_scope.

Definition lift {A : Type} (o : outcome A) : prog A := fun w => (w, o).

Definition emit (e : event) : prog unit :=
  fun w => ({| cu_count := cu_count w; cu_mask := cu_mask w;
               events := events w ++ [e] |}, Ret tt).

Definition print (text : string) : prog unit := emit (Stdout text).

(** Reading a module-level name: a [NameError] when it is not bound. *)
Definition read_cu_count : prog Z :=
  fun w => (w, match cu_count w with
               | Some c => Ret c
               | None => Raise (NameError "cu_count")
               end).

Definition read_cu_mask : prog Z :=
  fun w => (w, match cu_mask w with
               | Some m => Ret m
               | None => Raise (NameError "cu_mask")
               end).

Definition assign_cu_count (c : Z) : prog unit :=
  fun w => ({| cu_count := Some c; cu_mask := cu_mask w; events := events w |}, Ret tt).

Definition assign_cu_mask (m : Z) : prog unit :=
  fun w => ({| cu_count := cu_count w; cu_mask := Some m; events := events w |}, Ret tt).

Definition when (b : bool) (m : prog unit) : prog unit :=
  if b then m else pret tt.

(** [for x in xs: body(x)] *)
Fixpoint for_each {A : Type} (xs : list A) (body : A -> prog unit) : prog unit :=
  match xs with
  | [] => pret tt
  | x :: rest => (body x ;;; for_each rest body)%prog
  end.

(** [range(a, b)] *)
Definition range (a b : Z) : list Z :=
  map (fun i : nat => a + Z.of_nat i) (seq 0 (Z.to_nat (b - a))).

(** The parsed command line.  [--cu_count] has no default ([None] when
    absent); [--start_count] and [--device] default to 0. *)
Record arguments : Type := {
  arg_cu_count : option Z;
  arg_start_count : Z;
  arg_stripe : bool;
  arg_device : Z
}.

Section Script.

Local Open Scope string_scope.
Local Open Scope Z_scope.

Variable pysmctrl : pysmctrl_module.

(** The Runner, as seen from the script. *)
Variable runner : json -> proc_result.

(** [subprocess.Popen(["./bin/runner", "-"], stdin=PIPE)] followed by
    [process.communicate(input=config)]: the exit status is not read. *)
Definition popen_communicate (config : json) : prog unit :=
  match runner config with
  | LaunchFailed => lift (Raise OSError)
  | Exited status => emit (RunnerRun config status)
  end.

(** [run_process(int_cu_mask, striped)].  The name [cu_mask] in its body is
    not a local of the function: it is looked up in the module. *)
Definition run_process (int_cu_mask : Z) (striped : bool) : prog unit :=
  (cu_mask <- read_cu_mask ;;
   let config := generate_config cu_mask striped in
   print ("Starting test with CU mask " ++ cu_mask_to_hex_string int_cu_mask) ;;;
   popen_communicate config)%prog.

(** Truth value of [args.cu_count]: false when absent or 0. *)
Definition given (c : option Z) : bool :=
  match c with
  | Some c => negb (c =? 0)
  | None => false
  end.

(** The body of [for active_cus in range(args.start_count, cu_count)]. *)
Definition sweep_step (fuel : nat) (args : arguments) (cu_count active_cus : Z)
  : prog unit :=
  (print ("Running test for " ++ Fmt.str active_cus ++ " (+ 1) active CUs.") ;;;
   m <- lift (get_cu_mask pysmctrl fuel (active_cus + 1) cu_count
                (arg_stripe args) (arg_device args)) ;;
   assign_cu_mask m ;;;
   cu_mask <- read_cu_mask ;;
   run_process cu_mask (arg_stripe args) ;;;
   print (String (ascii_of_nat 10) ""))%prog.

(** The [__main__] block after argument parsing. *)
Definition main (fuel : nat) (args : arguments) : prog unit :=
  ((if given (arg_cu_count args) then
      assign_cu_count (default 0 (arg_cu_count args)) ;;;
      cu_count <- read_cu_count ;;
      when (cu_count <=? 0) (print "The CU count must be positive.")
    else if truthy pysmctrl then
      assign_cu_count (get_tpc_info pysmctrl (arg_device args)) ;;;
      cu_count <- read_cu_count ;;
      print ("Auto-detected a cu_count of " ++ Fmt.str cu_count)
    else pret tt) ;;;
   (if truthy pysmctrl then
      cu_count <- read_cu_count ;;
      when (cu_count >? get_tpc_info pysmctrl (arg_device args))
        (print "The CU count must not exceed the number of available TPCs.")
    else pret tt) ;;;
   (if arg_stripe args && negb (truthy pysmctrl) then
      print ("To use accurate striping, pysmctrl must be available and " ++
             "nvdebug must be loaded") ;;;
      lift (Exit 1)
    else pret tt) ;;;
   cu_count <- read_cu_count ;;
   for_each (range (arg_start_count args) cu_count) (sweep_step fuel args cu_count))%prog.

(** Running the script from a fresh interpreter. *)
Definition fresh : world := {| cu_count := None; cu_mask := None; events := [] |}.

Definition run_main (fuel : nat) (args : arguments) : list event * outcome unit :=
  let '(w, o) := main fuel args fresh in (events w, o).

End Script.

(** The Runner invocations among events, in order. *)
Definition runner_runs (evs : list event) : list (json * Z) :=
  flat_map (fun e => match e with RunnerRun c s => [(c, s)] | _ => [] end) evs.

(** The exit status the Runner gives for a configuration (0 when it cannot
    be started). *)
Definition exit_status (r : proc_result) : Z :=
  match r with
  | Exited status => status
  | LaunchFailed => 0
  end.

(** The events of one completed step of the sweep: loop variable
    [active_cus], mask [m] from the allocator, Runner status [status]. *)
Definition step_events (striped : bool) (active_cus m status : Z) : list event :=
  [ Stdout ("Running test for " ++ Fmt.str active_cus ++ " (+ 1) active CUs.")%string;
    Stdout ("Starting test with CU mask " ++ cu_mask_to_hex_string m)%string;
    RunnerRun (generate_config m striped) status;
    Stdout (String (ascii_of_nat 10) "") ].

(** What is printed before the loop when [--cu_count] is given. *)
Definition prologue (hw : pysmctrl_module) (args : arguments) (total : Z) : list event :=
  (if total <=? 0 then [Stdout "The CU count must be positive."] else []) ++
  (if truthy hw && (total >? get_tpc_info hw (arg_device args))
   then [Stdout "The CU count must not exceed the number of available TPCs."]
   else []).

(** ** Notions of the specification *)

(** The number of units of a topology: the set bits of all its groups. *)
Definition units (topo : list Z) : Z := foldr (fun m acc => popcount m + acc) 0 topo.

(** No unit belongs to two groups. *)
Fixpoint disjointb (topo : list Z) : bool :=
  match topo with
  | [] => true
  | g :: rest => forallb (fun h => Z.land g h =? 0) rest && disjointb rest
  end.

Definition disjoint (topo : list Z) : Prop :=
  forall i j a b, i <> j -> topo !! i = Some a -> topo !! j = Some b -> Z.land a b = 0.

(** How many times the cursor has been on group [i] after [p] advances over
    [L] groups, starting on group 0. *)
Fixpoint quota (L p i : nat) : Z :=
  match p with
  | O => 0
  | S q => quota L q i + (if (q mod L =? i)%nat then 1 else 0)
  end.

(** The same after [rounds] full rounds with the cursor on group [cursor]:
    the groups before the cursor have had one turn more. *)
Definition share (rounds : Z) (cursor i : nat) : Z :=
  rounds + (if (i <? cursor)%nat then 1 else 0).

(** The [d] groups from cursor position [p] on have no unit left. *)
Definition all_empty_from (info : list Z) (p d : nat) : Prop :=
  forall j, (j < d)%nat ->
    exists z, info !! ((p + j) mod length info)%nat = Some z /\ lowbit z = 0.

(** Group [i] of the topology [orig], with [o] at the start and [f] left,
    after [p] advances of the cursor: the units taken are as many as the
    turns the group has had (or all of them), and they lie below the units
    left. *)
Record group_inv (orig : list Z) (p i : nat) (o f : Z) : Prop := {
  g_nonneg : 0 <= f;
  g_subset : forall k, Z.testbit f k = true -> Z.testbit o k = true;
  g_count : popcount o - popcount f = Z.min (popcount o) (quota (length orig) p i);
  g_lowest : forall a b,
    Z.testbit o a = true -> Z.testbit f a = false -> Z.testbit f b = true -> a < b
}.

(** The consumed topology [info] and the accumulated mask [res] after [p]
    advances of the cursor and [b] units taken from [orig]. *)
Record alloc_inv (orig : list Z) (p : nat) (b : Z) (info : list Z) (res : Z) : Prop := {
  inv_length : length info = length orig;
  inv_groups : forall i o, orig !! i = Some o ->
    exists f, info !! i = Some f /\ group_inv orig p i o f;
  inv_res_nonneg : 0 <= res;
  inv_res : forall k, Z.testbit res k = true <->
    exists i o f, orig !! i = Some o /\ info !! i = Some f /\
                  Z.testbit o k = true /\ Z.testbit f k = false;
  inv_units : units info = units orig - b;
  inv_popcount : disjoint orig -> popcount res = b
}.

(** When the allocator returns at every step of the sweep: always in
    contiguous mode; in striped mode on a well-formed topology with enough
    units and fuel for one round of the groups. *)
Definition allocatable (hw : pysmctrl_module) (fuel : nat) (args : arguments) (total : Z) : Prop :=
  arg_stripe args = false \/
  (get_gpc_info hw (arg_device args) <> [] /\
   forallb is_mask64 (get_gpc_info hw (arg_device args)) = true /\
   0 <= arg_start_count args + 1 /\
   total <= units (get_gpc_info hw (arg_device args)) /\
   (length (get_gpc_info hw (arg_device args)) <= fuel)%nat).

(** ** The binary string of a mask *)

Module BinFmt.

Local Open Scope string_scope.
Local Open Scope Z_scope.

(** The binary digits of [n >= 0], most significant first (["0"] for 0). *)
Definition digits (n : Z) : string :=
  match n with
  | Zpos p => Fmt.pos_bin p ""
  | _ => "0"
  end.

(** [format(n, "064b")]: the binary digits of [|n|], padded with zeros to 64
    characters; the padding goes after the sign, which counts in the
    width.  Digits beyond the width are kept. *)
Definition format_064b (n : Z) : string :=
  if n <? 0 then
    let d := digits (- n) in
    String "-" (Fmt.zeros (63 - String.length d) ++ d)
  else
    let d := digits n in
    Fmt.zeros (64 - String.length d) ++ d.

Definition bit_value (c : ascii) : option Z :=
  if Ascii.eqb c "0" then Some 0
  else if Ascii.eqb c "1" then Some 1
  else None.

Fixpoint decode_bin_from (acc : Z) (s : string) : option Z :=
  match s with
  | EmptyString => Some acc
  | String c s' =>
      match bit_value c with
      | Some d => decode_bin_from (acc * 2 + d) s'
      | None => None
      end
  end.

(** Base-2 decoding of a non-empty string of binary digits. *)
Definition decode_bin (s : string) : option Z :=
  match s with
  | EmptyString => None
  | _ => decode_bin_from 0 s
  end.

Definition is_bit (c : ascii) : bool :=
  match bit_value c with Some _ => true | None => false end.

End BinFmt.

(** [cu_mask_to_binary_string(int_cu_mask)] *)
Definition cu_mask_to_binary_string (int_cu_mask : Z) : string :=
  BinFmt.format_064b int_cu_mask.

(** ** Summary values of a result file ([scripts/view_scatterplots_rtns.py])

    [plugin_summary_values] works on the numbers of a parsed result file and
    on [numpy.mean].  Its control flow does not depend on what the numbers
    are, so the numbers are a parameter: their type, the subtraction, the
    comparison that [min] and [max] use, the product by [1000.0] and
    [numpy.mean].  An entry of [plugin["times"]] is a dict from key names to
    lists of numbers, kept as an association list. *)

Module Summary.

Inductive failure : Type :=
| IndexError     (* [times[i + 1]] past the end of the list *)
| ValueError.    (* [min] of an empty list *)

Inductive result (A : Type) : Type :=
| Ok (a : A)
| Err (e : failure).

Arguments Ok {A} a.
Arguments Err {A} e.

Section Numbers.

Variable num : Type.
Variable sub : num -> num -> num.        (* [x - y] *)
Variable lt : num -> num -> bool.        (* [x < y] *)
Variable times_1000 : num -> num.        (* [x * 1000.0] *)
Variable mean : list num -> num.         (* [numpy.mean] *)

Definition entry : Type := list (string * list num).

(** [t[key]], when [key in t]. *)
Fixpoint lookup_key (key : string) (t : entry) : option (list num) :=
  match t with
  | [] => None
  | (k, v) :: rest => if String.eqb k key then Some v else lookup_key key rest
  end.

(** The [while] loop,
<<
      i = 0
      while i < len(times):
          duration = times[i + 1] - times[i]
          durations.append(duration)
          i += 2
>>
    which reads the list two elements at a time. *)
Fixpoint pair_durations (times : list num) (durations : list num) : result (list num) :=
  match times with
  | [] => Ok durations
  | [_] => Err IndexError
  | start :: stop :: rest => pair_durations rest (durations ++ [sub stop start])
  end.

(** [for t in plugin["times"]: ...] *)
Fixpoint collect_durations (times_key : string) (entries : list entry)
    (durations : list num) : result (list num) :=
  match entries with
  | [] => Ok durations
  | t :: rest =>
      match lookup_key times_key t with
      | None => collect_durations times_key rest durations
      | Some times =>
          match pair_durations times durations with
          | Ok durations => collect_durations times_key rest durations
          | Err e => Err e
          end
      end
  end.

(** [min(xs)]: the first of the least elements. *)
Definition py_min (xs : list num) : result num :=
  match xs with
  | [] => Err ValueError
  | x :: rest => Ok (fold_left (fun best y => if lt y best then y else best) rest x)
  end.

(** [max(xs)]: the first of the greatest elements. *)
Definition py_max (xs : list num) : result num :=
  match xs with
  | [] => Err ValueError
  | x :: rest => Ok (fold_left (fun best y => if lt best y then y else best) rest x)
  end.

(** [plugin_summary_values(plugin, times_key)], on [plugin["times"]]. *)
Definition plugin_summary_values (plugin_times : list entry) (times_key : string)
  : result (list num) :=
  match collect_durations times_key plugin_times [] with
  | Err e => Err e
  | Ok durations =>
      match py_min durations with
      | Err e => Err e
      | Ok minimum =>
          match py_max durations with
          | Err e => Err e
          | Ok maximum =>
              Ok [times_1000 minimum; times_1000 maximum; times_1000 (mean durations)]
          end
      end
  end.

(** The durations of a list of timestamps: stop minus start for each pair. *)
Fixpoint differences (times : list num) : list num :=
  match times with
  | start :: stop :: rest => sub stop start :: differences rest
  | _ => []
  end.

(** The timestamps an entry has under the key (none without the key). *)
Definition stamps (times_key : string) (t : entry) : list num :=
  match lookup_key times_key t with
  | Some times => times
  | None => []
  end.

Definition odd_stamps (times_key : string) (t : entry) : bool :=
  Nat.odd (length (stamps times_key t)).

(** All the durations of a file, in the order of the file. *)
Definition all_durations (times_key : string) (entries : list entry) : list num :=
  flat_map (fun t => differences (stamps times_key t)) entries.

End Numbers.

End Summary.

(** * Facts about bits *)

Lemma pos_popcount_pos p : 1 <= pos_popcount p.
Proof. induction p; simpl; lia. Qed.

Lemma popcount_nonneg m : 0 <= popcount m.
Proof. destruct m; simpl; try lia. pose proof (pos_popcount_pos p); lia. Qed.

Lemma popcount_zero_iff m : 0 <= m -> (popcount m = 0 <-> m = 0).
Proof.
  destruct m as [|p|p]; simpl; intros H; split; intros E; try lia.
  pose proof (pos_popcount_pos p); lia.
Qed.

Lemma testbit_cons (b : bool) a i :
  0 <= i -> Z.testbit (2 * a + Z.b2z b) i = if i =? 0 then b else Z.testbit a (i - 1).
Proof.
  intros Hi. destruct (Z.eqb_spec i 0) as [->|Hne].
  - apply Z.testbit_0_r.
  - replace i with (Z.succ (i - 1)) at 1 by lia. apply Z.testbit_succ_r. lia.
Qed.

Lemma popcount_cons (b : bool) a :
  0 <= a -> popcount (2 * a + Z.b2z b) = popcount a + Z.b2z b.
Proof.
  destruct a as [|p|p], b; intros H; try reflexivity; try lia.
  - change (2 * Z.pos p + Z.b2z true) with (Z.pos p~1). simpl. lia.
  - change (2 * Z.pos p + Z.b2z false) with (Z.pos p~0). simpl. lia.
Qed.

(** Splitting off the lowest bit. *)
Lemma bit_split a : a = 2 * Z.div2 a + Z.b2z (Z.odd a).
Proof. apply Z.div2_odd. Qed.

Lemma div2_bounds a : 0 <= a -> 0 <= Z.div2 a /\ (0 < a -> Z.div2 a < a).
Proof. intros H. pose proof (bit_split a). destruct (Z.odd a); simpl in *; lia. Qed.

Lemma lor_cons a b x y :
  Z.lor (2 * a + Z.b2z x) (2 * b + Z.b2z y) = 2 * Z.lor a b + Z.b2z (x || y).
Proof.
  apply Z.bits_inj'. intros i Hi.
  rewrite Z.lor_spec, !testbit_cons by lia.
  destruct (i =? 0); [reflexivity | by rewrite Z.lor_spec].
Qed.

Lemma land_cons a b x y :
  Z.land (2 * a + Z.b2z x) (2 * b + Z.b2z y) = 2 * Z.land a b + Z.b2z (x && y).
Proof.
  apply Z.bits_inj'. intros i Hi.
  rewrite Z.land_spec, !testbit_cons by lia.
  destruct (i =? 0); [reflexivity | by rewrite Z.land_spec].
Qed.

Lemma popcount_lor_disjoint_aux s :
  0 <= s -> forall a b, 0 <= a -> 0 <= b -> a + b = s -> Z.land a b = 0 ->
  popcount (Z.lor a b) = popcount a + popcount b.
Proof.
  intros Hs. pattern s. apply Z_lt_induction; [|exact Hs].
  clear s Hs. intros s IH a b Ha Hb Hs Hdisj.
  destruct (Z.eq_dec s 0) as [->|Hne].
  { assert (a = 0) as -> by lia. assert (b = 0) as -> by lia. reflexivity. }
  pose proof (bit_split a) as Ea. pose proof (bit_split b) as Eb.
  pose proof (div2_bounds a Ha) as [Ha2 _].
  pose proof (div2_bounds b Hb) as [Hb2 _].
  set (a' := Z.div2 a) in *. set (b' := Z.div2 b) in *.
  assert (0 <= Z.land a' b') as Hl by (apply Z.land_nonneg; lia).
  assert (0 <= Z.lor a' b') as Ho by (apply Z.lor_nonneg; lia).
  rewrite Ea, Eb in Hdisj |- *. rewrite land_cons in Hdisj. rewrite lor_cons.
  rewrite !popcount_cons by lia.
  rewrite (IH (a' + b')); try lia;
    destruct (Z.odd a), (Z.odd b); simpl in *; lia.
Qed.

(** The set bits of a union of disjoint masks. *)
Lemma popcount_lor_disjoint a b :
  0 <= a -> 0 <= b -> Z.land a b = 0 -> popcount (Z.lor a b) = popcount a + popcount b.
Proof. intros Ha Hb. apply (popcount_lor_disjoint_aux (a + b)); lia. Qed.

Lemma popcount_pow2 k : 0 <= k -> popcount (2 ^ k) = 1.
Proof.
  intros Hk. pattern k. apply natlike_ind; [reflexivity | | exact Hk].
  intros x Hx IH. rewrite Z.pow_succ_r by lia.
  replace (2 * 2 ^ x) with (2 * 2 ^ x + Z.b2z false) by (simpl; lia).
  rewrite popcount_cons by (apply Z.pow_nonneg; lia). simpl. lia.
Qed.

(** ** The rightmost set bit *)

Lemma lowbit_nonneg m : 0 <= lowbit m.
Proof. unfold lowbit. apply Z.land_nonneg. lia. Qed.

Lemma lowbit_subset m : Z.ldiff (lowbit m) m = 0.
Proof.
  apply Z.bits_inj'. intros i Hi. unfold lowbit.
  rewrite Z.ldiff_spec, Z.land_spec, Z.bits_0.
  destruct (Z.testbit m i); simpl; [apply andb_false_r | reflexivity].
Qed.

Lemma sub_lowbit m : m - lowbit m = Z.ldiff m (lowbit m).
Proof. apply Z.sub_nocarry_ldiff. apply lowbit_subset. Qed.

Lemma lowbit_even m : lowbit (2 * m) = 2 * lowbit m.
Proof.
  unfold lowbit. replace (- (2 * m)) with (2 * (- m)) by lia.
  pose proof (land_cons m (- m) false false) as H. simpl in H.
  rewrite !Z.add_0_r in H. exact H.
Qed.

Lemma lowbit_odd m : lowbit (2 * m + 1) = 1.
Proof.
  unfold lowbit. replace (- (2 * m + 1)) with (2 * Z.lnot m + 1) by (unfold Z.lnot; lia).
  pose proof (land_cons m (Z.lnot m) true true) as H. simpl in H.
  rewrite H. replace (Z.land m (Z.lnot m)) with 0; [reflexivity|].
  symmetry. apply Z.bits_inj'. intros i Hi.
  rewrite Z.land_spec, Z.lnot_spec, Z.bits_0 by lia. destruct (Z.testbit m i); reflexivity.
Qed.

(** For a positive mask, [lowbit] is the power of two at its lowest set bit. *)
Lemma lowbit_spec m :
  0 < m ->
  exists k, 0 <= k /\ lowbit m = 2 ^ k /\ Z.testbit m k = true /\
            forall j, 0 <= j < k -> Z.testbit m j = false.
Proof.
  destruct m as [|p|p]; try lia. intros _.
  induction p as [p IH|p IH|].
  - exists 0. change (Z.pos p~1) with (2 * Z.pos p + 1). rewrite lowbit_odd.
    repeat split; try reflexivity; try lia.
  - destruct IH as (k & Hk & Hlow & Hbit & Hmin). exists (k + 1).
    change (Z.pos p~0) with (2 * Z.pos p). rewrite lowbit_even, Hlow.
    split; [lia|]. split; [rewrite Z.pow_add_r by lia; lia|]. split.
    + pose proof (testbit_cons false (Z.pos p) (k + 1) ltac:(lia)) as T.
      simpl Z.b2z in T. rewrite Z.add_0_r in T. rewrite T.
      destruct (Z.eqb_spec (k + 1) 0); [lia|]. by replace (k + 1 - 1) with k by lia.
    + intros j Hj.
      pose proof (testbit_cons false (Z.pos p) j ltac:(lia)) as T.
      simpl Z.b2z in T. rewrite Z.add_0_r in T. rewrite T.
      destruct (Z.eqb_spec j 0); [reflexivity|]. apply Hmin. lia.
  - exists 0. repeat split; try reflexivity; lia.
Qed.

Lemma lowbit_zero_iff m : 0 <= m -> (lowbit m = 0 <-> m = 0).
Proof.
  intros Hm. split; [|by intros ->].
  intros H0. destruct (Z.eq_dec m 0) as [|Hne]; [done|].
  destruct (lowbit_spec m ltac:(lia)) as (k & Hk & Hlow & _).
  pose proof (Z.pow_pos_nonneg 2 k). lia.
Qed.

(** Removing the rightmost set bit of a positive mask. *)
Lemma sub_lowbit_spec m :
  0 < m ->
  0 <= m - lowbit m /\
  Z.land (m - lowbit m) (lowbit m) = 0 /\
  Z.lor (m - lowbit m) (lowbit m) = m /\
  popcount (m - lowbit m) = popcount m - 1.
Proof.
  intros Hm. rewrite sub_lowbit.
  assert (0 <= Z.ldiff m (lowbit m)) as Hnn by (apply Z.ldiff_nonneg; left; lia).
  assert (Z.land (Z.ldiff m (lowbit m)) (lowbit m) = 0) as Hd.
  { apply Z.bits_inj'. intros i Hi.
    rewrite Z.land_spec, Z.ldiff_spec, Z.bits_0.
    destruct (Z.testbit m i), (Z.testbit (lowbit m) i); reflexivity. }
  assert (Z.lor (Z.ldiff m (lowbit m)) (lowbit m) = m) as Hu.
  { apply Z.bits_inj'. intros i Hi. unfold lowbit.
    rewrite Z.lor_spec, Z.ldiff_spec, Z.land_spec.
    destruct (Z.testbit m i), (Z.testbit (- m) i); reflexivity. }
  repeat split; try done.
  destruct (lowbit_spec m Hm) as (k & Hk & Hlow & _).
  pose proof (popcount_lor_disjoint _ _ Hnn (lowbit_nonneg m) Hd) as P.
  assert (popcount (lowbit m) = 1) by (rewrite Hlow; apply popcount_pow2; lia).
  rewrite Hu in P. lia.
Qed.

(** The set bits of a mask outside a part of it. *)
Lemma popcount_ldiff_subset o f :
  0 <= o -> 0 <= f -> (forall k, Z.testbit f k = true -> Z.testbit o k = true) ->
  popcount (Z.ldiff o f) = popcount o - popcount f.
Proof.
  intros Ho Hf Hsub.
  assert (0 <= Z.ldiff o f) as Hd by (apply Z.ldiff_nonneg; left; lia).
  assert (Z.land f (Z.ldiff o f) = 0) as Hdisj.
  { apply Z.bits_inj'. intros k Hk. rewrite Z.land_spec, Z.ldiff_spec, Z.bits_0.
    destruct (Z.testbit f k), (Z.testbit o k); reflexivity. }
  assert (Z.lor f (Z.ldiff o f) = o) as Hu.
  { apply Z.bits_inj'. intros k Hk. rewrite Z.lor_spec, Z.ldiff_spec.
    destruct (Z.testbit f k) eqn:Hfk; simpl.
    - symmetry. by apply Hsub.
    - apply andb_true_r. }
  pose proof (popcount_lor_disjoint f (Z.ldiff o f) Hf Hd Hdisj) as P.
  rewrite Hu in P. lia.
Qed.

(** ** The contiguous path *)

Lemma ones_succ n : 0 <= n -> Z.ones (n + 1) = 2 * Z.ones n + 1.
Proof. intros H. rewrite !Z.ones_equiv, Z.pow_add_r by lia. lia. Qed.

Lemma lor_shiftl_1 x : Z.lor (Z.shiftl x 1) 1 = 2 * x + 1.
Proof.
  apply Z.bits_inj'. intros i Hi.
  rewrite Z.lor_spec, Z.shiftl_spec by lia.
  change (2 * x + 1) with (2 * x + Z.b2z true). rewrite testbit_cons by lia.
  change 1 with (2 * 0 + Z.b2z true) at 2. rewrite testbit_cons by lia.
  destruct (Z.eqb_spec i 0) as [->|Hne].
  - apply orb_true_r.
  - rewrite Z.bits_0. apply orb_false_r.
Qed.

Lemma contiguous_loop_ones k j :
  contiguous_loop k (Z.ones (Z.of_nat j)) = Z.ones (Z.of_nat (j + k)).
Proof.
  revert j. induction k as [|k IH]; intros j; simpl.
  - by rewrite Nat.add_0_r.
  - rewrite lor_shiftl_1, <- ones_succ by lia.
    replace (Z.of_nat j + 1) with (Z.of_nat (S j)) by lia.
    rewrite IH. f_equal. lia.
Qed.

Lemma popcount_ones n : 0 <= n -> popcount (Z.ones n) = n.
Proof.
  intros Hn. pattern n. apply natlike_ind; [reflexivity | | exact Hn].
  intros x Hx IH. unfold Z.succ. rewrite ones_succ by lia.
  change (2 * Z.ones x + 1) with (2 * Z.ones x + Z.b2z true).
  rewrite popcount_cons, IH; [simpl; lia|].
  rewrite Z.ones_equiv. pose proof (Z.pow_pos_nonneg 2 x). lia.
Qed.

Lemma get_cu_mask_contiguous hw fuel n total dev :
  get_cu_mask hw fuel n total false dev = Ret (Z.lnot (Z.ones (Z.max 0 n))).
Proof.
  unfold get_cu_mask. simpl. change 0 with (Z.ones (Z.of_nat 0)) at 1.
  rewrite contiguous_loop_ones. do 3 f_equal. lia.
Qed.

(** * Facts about formatting *)

Module FmtFacts.
Import Fmt.
Local Open Scope string_scope.
Local Open Scope Z_scope.

Lemma length_app (a b : string) :
  String.length (a ++ b) = (String.length a + String.length b)%nat.
Proof. induction a as [|c a IH]; simpl; [reflexivity | by rewrite IH]. Qed.

Lemma nibbles_length k n : String.length (nibbles k n) = k.
Proof.
  revert n. induction k as [|k IH]; intros n; simpl; [reflexivity|].
  rewrite length_app, IH. simpl. lia.
Qed.

Lemma zeros_length k : String.length (zeros k) = k.
Proof. induction k as [|k IH]; simpl; [reflexivity | by rewrite IH]. Qed.

Lemma hex_value_hex_char d : 0 <= d < 16 -> hex_value (hex_char d) = Some d.
Proof.
  intros H.
  assert (d = 0 \/ d = 1 \/ d = 2 \/ d = 3 \/ d = 4 \/ d = 5 \/ d = 6 \/ d = 7 \/
          d = 8 \/ d = 9 \/ d = 10 \/ d = 11 \/ d = 12 \/ d = 13 \/ d = 14 \/ d = 15)
    as Hd by lia.
  repeat (destruct Hd as [-> | Hd]; [reflexivity|]). by subst.
Qed.

Lemma decode_app acc s1 s2 :
  decode_hex_from acc (s1 ++ s2) =
  match decode_hex_from acc s1 with
  | Some a => decode_hex_from a s2
  | None => None
  end.
Proof.
  revert acc. induction s1 as [|c s1 IH]; intros acc; simpl; [reflexivity|].
  destruct (hex_value c); [apply IH | reflexivity].
Qed.

Lemma decode_nibbles k : forall n acc,
  decode_hex_from acc (nibbles k n) = Some (acc * 16 ^ Z.of_nat k + n mod 16 ^ Z.of_nat k).
Proof.
  induction k as [|k IH]; intros n acc.
  - simpl. rewrite Z.mod_1_r. f_equal. lia.
  - cbn [nibbles]. rewrite decode_app, IH. cbn [decode_hex_from].
    rewrite hex_value_hex_char by (apply Z.mod_pos_bound; lia).
    f_equal. rewrite Nat2Z.inj_succ, Z.pow_succ_r by lia.
    rewrite Z.rem_mul_r by lia. ring.
Qed.

Lemma decode_zeros k : forall acc,
  decode_hex_from acc (zeros k) = Some (acc * 16 ^ Z.of_nat k).
Proof.
  induction k as [|k IH]; intros acc; simpl zeros; cbn [decode_hex_from hex_value].
  - f_equal. simpl. lia.
  - change (hex_value "0") with (Some 0). cbn iota. rewrite IH. f_equal.
    rewrite Nat2Z.inj_succ, Z.pow_succ_r by lia. lia.
Qed.

Lemma all_chars_app f s1 s2 :
  all_chars f (s1 ++ s2) = all_chars f s1 && all_chars f s2.
Proof.
  induction s1 as [|c s1 IH]; simpl; [reflexivity|]. by rewrite IH, andb_assoc.
Qed.

Lemma is_hex_digit_hex_char d : is_hex_digit (hex_char d) = true.
Proof.
  unfold is_hex_digit.
  destruct d as [|p|p]; try reflexivity.
  do 4 (destruct p as [p|p|]; try reflexivity).
Qed.

Lemma nibbles_hex k n : all_chars is_hex_digit (nibbles k n) = true.
Proof.
  revert n. induction k as [|k IH]; intros n; simpl; [reflexivity|].
  rewrite all_chars_app, IH. simpl. by rewrite is_hex_digit_hex_char.
Qed.

Lemma zeros_hex k : all_chars is_hex_digit (zeros k) = true.
Proof. induction k as [|k IH]; simpl; [reflexivity | exact IH]. Qed.

(** A 64-bit value has at most 16 hexadecimal digits, and they hold it. *)
Lemma hex_width_bound n :
  0 <= n < 2 ^ 64 -> (1 <= hex_width n <= 16)%nat /\ n < 16 ^ Z.of_nat (hex_width n).
Proof.
  intros [H0 H64]. unfold hex_width.
  assert (0 <= Z.log2 n < 64) as Hlog.
  { split; [apply Z.log2_nonneg|].
    destruct (Z.eq_dec n 0) as [->|Hn]; [reflexivity|].
    apply Z.log2_lt_pow2; lia. }
  assert (0 <= Z.log2 n / 4 < 16) as Hq.
  { split; [apply Z.div_pos; lia | apply Z.div_lt_upper_bound; lia]. }
  split; [lia|].
  rewrite Z2Nat.id by lia.
  change 16 with (2 ^ 4) at 1. rewrite <- Z.pow_mul_r by lia.
  destruct (Z.eq_dec n 0) as [->|Hn].
  - apply Z.pow_pos_nonneg; lia.
  - apply Z.log2_lt_pow2; [lia|].
    pose proof (Z.mul_div_le (Z.log2 n) 4). pose proof (Z.mod_pos_bound (Z.log2 n) 4).
    pose proof (Z.div_mod (Z.log2 n) 4). lia.
Qed.

Lemma decode_hex_from_nonempty s :
  (0 < String.length s)%nat -> decode_hex s = decode_hex_from 0 s.
Proof. destruct s; simpl; [lia | reflexivity]. Qed.

Lemma format_016x_spec n :
  0 <= n < 2 ^ 64 ->
  String.length (format_016x n) = 16%nat /\
  all_chars is_hex_digit (format_016x n) = true /\
  decode_hex (format_016x n) = Some n.
Proof.
  intros Hn. destruct (hex_width_bound n Hn) as [Hw Hlt].
  unfold format_016x. destruct (Z.ltb_spec n 0) as [?|_]; [lia|].
  cbv zeta. rewrite nibbles_length.
  assert (String.length (zeros (16 - hex_width n) ++ nibbles (hex_width n) n) = 16%nat) as Hlen.
  { rewrite length_app, zeros_length, nibbles_length. lia. }
  split; [exact Hlen|]. split.
  - by rewrite all_chars_app, zeros_hex, nibbles_hex.
  - rewrite decode_hex_from_nonempty by lia.
    rewrite decode_app, decode_zeros, decode_nibbles. f_equal.
    rewrite Z.mod_small; lia.
Qed.

Lemma land_mask64 m : Z.land m 0xffffffffffffffff = m mod 2 ^ 64.
Proof. change 0xffffffffffffffff with (Z.ones 64). apply Z.land_ones. lia. Qed.

(** The encoding of a mask: 16 hexadecimal digits holding its low 64 bits. *)
Lemma hex_mask_spec m :
  String.length (cu_mask_to_hex_string m) = 16%nat /\
  all_chars is_hex_digit (cu_mask_to_hex_string m) = true /\
  decode_hex (cu_mask_to_hex_string m) = Some (m mod 2 ^ 64).
Proof.
  unfold cu_mask_to_hex_string. rewrite land_mask64.
  apply format_016x_spec. apply Z.mod_pos_bound. lia.
Qed.

End FmtFacts.

(** * The striped path *)

(** ** Python indexing *)

Lemma resolve_nat n (i : nat) : (i < n)%nat -> PyList.resolve n (Z.of_nat i) = Some i.
Proof.
  intros Hi. unfold PyList.resolve.
  destruct (Z.leb_spec 0 (Z.of_nat i)); [|lia].
  destruct (Z.ltb_spec (Z.of_nat i) (Z.of_nat n)); [|lia].
  simpl. f_equal. lia.
Qed.

Lemma succ_mod (p L : nat) :
  (0 < L)%nat ->
  (S p mod L = if (S (p mod L) <? L)%nat then S (p mod L) else 0)%nat.
Proof.
  intros HL. pose proof (Nat.mod_upper_bound p L ltac:(lia)) as Hr.
  pose proof (Nat.div_mod_eq p L) as E.
  destruct (Nat.ltb_spec (S (p mod L)) L) as [Hlt|Hge].
  - symmetry. apply (Nat.mod_unique _ _ (p / L)); lia.
  - symmetry. apply (Nat.mod_unique _ _ (S (p / L))); lia.
Qed.

(** The index [next_gpc - 1] after the cursor has moved past group [g]:
    it is [-1], the last group, when the cursor has wrapped to 0. *)
Lemma resolve_prev L (g : nat) :
  (g < L)%nat ->
  PyList.resolve L ((Z.of_nat g + 1) mod Z.of_nat L - 1) = Some g.
Proof.
  intros Hg. unfold PyList.resolve.
  set (i := (Z.of_nat g + 1) mod Z.of_nat L - 1).
  assert (i = Z.of_nat g \/ (i = -1 /\ Z.of_nat g + 1 = Z.of_nat L)) as Hi.
  { unfold i. destruct (Z.eq_dec (Z.of_nat g + 1) (Z.of_nat L)) as [E|NE].
    - right. rewrite E, Z.mod_same by lia. lia.
    - left. rewrite Z.mod_small by lia. lia. }
  clearbody i.
  destruct (Z.leb_spec 0 i), (Z.ltb_spec i (Z.of_nat L)),
    (Z.leb_spec (- Z.of_nat L) i), (Z.ltb_spec i 0); simpl; try lia; f_equal; lia.
Qed.

Lemma cursor_succ (p L : nat) :
  (0 < L)%nat ->
  (Z.of_nat (p mod L) + 1) mod Z.of_nat L = Z.of_nat (S p mod L).
Proof.
  intros HL. rewrite !Nat2Z.inj_mod, Nat2Z.inj_succ.
  unfold Z.succ. apply Z.add_mod_idemp_l. lia.
Qed.

(** ** The scan of the groups *)

(** What one run of the [while] loop does from cursor position [p mod L]:
    it never raises; it skips [d] groups without a unit and returns the
    rightmost bit of the next one, or is still running after [fuel] empty
    groups. *)
Lemma scan_spec fuel : forall info p,
  (0 < length info)%nat ->
  match scan fuel info (Z.of_nat (p mod length info)) with
  | Ret (bit, c) =>
      exists d m, (d < fuel)%nat /\ all_empty_from info p d /\
        info !! ((p + d) mod length info)%nat = Some m /\ lowbit m <> 0 /\
        bit = lowbit m /\ c = Z.of_nat (S (p + d) mod length info)
  | OutOfFuel => all_empty_from info p fuel
  | _ => False
  end.
Proof.
  induction fuel as [|fuel IH]; intros info p HL.
  - simpl. intros j Hj. lia.
  - cbn [scan]. unfold PyList.getitem.
    pose proof (Nat.mod_upper_bound p (length info) ltac:(lia)) as Hr.
    rewrite resolve_nat by exact Hr.
    destruct (lookup_lt_is_Some_2 info _ Hr) as [m Hm]. rewrite Hm. cbn [bind].
    unfold PyList.len. rewrite cursor_succ by exact HL.
    destruct (Z.eqb_spec (lowbit m) 0) as [Hz|Hnz].
    + specialize (IH info (S p) HL).
      destruct (scan fuel info (Z.of_nat (S p mod length info))) as [[bit c]|e|code|];
        try contradiction.
      * destruct IH as (d & m' & Hd & Hskip & Hm' & Hnz & -> & ->).
        exists (S d), m'. rewrite Nat.add_succ_r. simpl in Hm'.
        repeat split; try done; try lia.
        intros [|j] Hj.
        -- rewrite Nat.add_0_r. eauto.
        -- rewrite Nat.add_succ_r. apply (Hskip j). lia.
      * intros [|j] Hj.
        -- rewrite Nat.add_0_r. eauto.
        -- rewrite Nat.add_succ_r. apply (IH j). lia.
    + exists 0%nat, m. rewrite Nat.add_0_r.
      repeat split; try done; try lia. intros j Hj. lia.
Qed.

(** Every group comes under the cursor within [L] advances. *)
Lemma cursor_reaches (p L i : nat) :
  (i < L)%nat -> exists j, (j < L)%nat /\ ((p + j) mod L = i)%nat.
Proof.
  intros Hi. pose proof (Nat.mod_upper_bound p L ltac:(lia)) as Hr.
  pose proof (Nat.div_mod_eq p L) as E.
  destruct (Nat.le_gt_cases (p mod L) i) as [Hle|Hgt].
  - exists (i - p mod L)%nat. split; [lia|].
    symmetry. apply (Nat.mod_unique _ _ (p / L)); lia.
  - exists (L + i - p mod L)%nat. split; [lia|].
    symmetry. apply (Nat.mod_unique _ _ (S (p / L))); lia.
Qed.

(** One iteration of the striped loop. *)
Lemma striped_step_spec fuel st p :
  (0 < length (info st))%nat ->
  next_gpc st = Z.of_nat (p mod length (info st)) ->
  match striped_step fuel st with
  | Ret st' =>
      exists d m, (d < fuel)%nat /\ all_empty_from (info st) p d /\
        info st !! ((p + d) mod length (info st))%nat = Some m /\ lowbit m <> 0 /\
        st' = {| info := <[((p + d) mod length (info st))%nat := m - lowbit m]> (info st);
                 next_gpc := Z.of_nat (S (p + d) mod length (info st));
                 res := Z.lor (res st) (lowbit m) |}
  | OutOfFuel => all_empty_from (info st) p fuel
  | _ => False
  end.
Proof.
  intros HL Hc. unfold striped_step. rewrite Hc.
  pose proof (scan_spec fuel (info st) p HL) as Hs.
  destruct (scan fuel (info st) (Z.of_nat (p mod length (info st)))) as [[bit c]|e|code|];
    try contradiction; cbn [bind]; [|exact Hs].
  destruct Hs as (d & m & Hd & Hskip & Hm & Hnz & -> & ->).
  pose proof (Nat.mod_upper_bound (p + d) (length (info st)) ltac:(lia)) as Hr.
  rewrite <- cursor_succ by exact HL.
  unfold PyList.getitem, PyList.setitem.
  rewrite resolve_prev by exact Hr. rewrite Hm. cbn [bind].
  exists d, m. rewrite cursor_succ by exact HL. repeat split; try done.
Qed.

(** ** Topologies *)

Lemma units_nonneg topo : 0 <= units topo.
Proof.
  induction topo as [|m topo IH]; simpl; [lia|]. pose proof (popcount_nonneg m). lia.
Qed.

Lemma units_insert topo i m m' :
  topo !! i = Some m ->
  units (<[i := m']> topo) = units topo - popcount m + popcount m'.
Proof.
  revert i. induction topo as [|x topo IH]; intros [|i] H; simpl in *; try discriminate.
  - injection H as ->. lia.
  - rewrite (IH i H). lia.
Qed.

Lemma units_all_empty topo :
  (forall i z, topo !! i = Some z -> z = 0) -> units topo = 0.
Proof.
  induction topo as [|x topo IH]; intros H; simpl; [reflexivity|].
  rewrite (H 0%nat x eq_refl). rewrite IH; [reflexivity|].
  intros i z Hz. apply (H (S i) z Hz).
Qed.

Lemma disjointb_disjoint topo : disjointb topo = true -> disjoint topo.
Proof.
  induction topo as [|g rest IH]; intros H i j a b Hne Ha Hb.
  - discriminate.
  - simpl in H. apply andb_true_iff in H as [Hg Hrest].
    rewrite forallb_forall in Hg.
    destruct i as [|i], j as [|j]; simpl in Ha, Hb; try congruence.
    + injection Ha as ->. apply Z.eqb_eq, Hg.
      apply list_elem_of_In, list_elem_of_lookup. eauto.
    + injection Hb as ->. rewrite Z.land_comm. apply Z.eqb_eq, Hg.
      apply list_elem_of_In, list_elem_of_lookup. eauto.
    + apply (IH Hrest i j); congruence.
Qed.

Lemma disjoint_bits a b k :
  Z.land a b = 0 -> Z.testbit a k = true -> Z.testbit b k = true -> False.
Proof.
  intros H Ha Hb. pose proof (Z.land_spec a b k) as S.
  rewrite H, Z.bits_0, Ha, Hb in S. discriminate.
Qed.

Lemma forallb_mask64_nonneg topo :
  forallb is_mask64 topo = true -> forall i m, topo !! i = Some m -> 0 <= m.
Proof.
  rewrite forallb_forall. intros H i m Hm.
  assert (is_mask64 m = true) as Hb.
  { apply H, list_elem_of_In, list_elem_of_lookup. eauto. }
  unfold is_mask64 in Hb. apply andb_true_iff in Hb as [Hb _]. lia.
Qed.

(** ** Turns of the cursor *)

Lemma quota_closed (L p i : nat) :
  (i < L)%nat -> quota L p i = share (Z.of_nat (p / L)) (p mod L) i.
Proof.
  intros Hi. unfold share. induction p as [|p IH].
  - rewrite Nat.Div0.div_0_l, Nat.Div0.mod_0_l. reflexivity.
  - cbn [quota]. rewrite IH.
    pose proof (Nat.mod_upper_bound p L ltac:(lia)) as Hr.
    pose proof (Nat.div_mod_eq p L) as E.
    destruct (Nat.ltb_spec (S (p mod L)) L) as [Hlt|Hge].
    + assert (S p / L = p / L)%nat as ->
        by (symmetry; apply (Nat.div_unique _ _ _ (S (p mod L))); lia).
      assert (S p mod L = S (p mod L))%nat as ->
        by (symmetry; apply (Nat.mod_unique _ _ (p / L)); lia).
      destruct (Nat.eqb_spec (p mod L) i), (Nat.ltb_spec i (p mod L)),
        (Nat.ltb_spec i (S (p mod L))); lia.
    + assert (S p / L = S (p / L))%nat as ->
        by (symmetry; apply (Nat.div_unique _ _ _ 0%nat); lia).
      assert (S p mod L = 0)%nat as ->
        by (symmetry; apply (Nat.mod_unique _ _ (S (p / L))); lia).
      destruct (Nat.eqb_spec (p mod L) i), (Nat.ltb_spec i (p mod L)),
        (Nat.ltb_spec i 0); lia.
Qed.

(** ** What picking the rightmost bit does to a group *)

Lemma pick_bits m :
  0 < m ->
  exists k, 0 <= k /\ lowbit m = 2 ^ k /\ Z.testbit m k = true /\
    (forall j, 0 <= j < k -> Z.testbit m j = false) /\
    (forall i, Z.testbit (lowbit m) i = (i =? k)) /\
    (forall i, Z.testbit (m - lowbit m) i = Z.testbit m i && negb (i =? k)).
Proof.
  intros Hm. destruct (lowbit_spec m Hm) as (k & Hk & Hlow & Hbit & Hmin).
  exists k. repeat split; try done.
  - intros i. rewrite Hlow, Z.pow2_bits_eqb by lia. apply Z.eqb_sym.
  - intros i. rewrite sub_lowbit, Z.ldiff_spec, Hlow, Z.pow2_bits_eqb by lia.
    by rewrite (Z.eqb_sym k i).
Qed.

(** ** The invariant of the striped loop *)

Section StripedInvariant.

(** The topology the allocation starts from. *)
Variable orig : list Z.
Hypothesis orig_nonempty : (0 < length orig)%nat.
Hypothesis orig_nonneg : forall i o, orig !! i = Some o -> 0 <= o.

Lemma alloc_inv_init : alloc_inv orig 0 0 orig 0.
Proof.
  split; try done.
  - intros i o Ho. exists o. split; [done|]. split.
    + eauto.
    + done.
    + simpl. pose proof (popcount_nonneg o). lia.
    + intros a b Ha Ha'. congruence.
  - intros k. rewrite Z.bits_0. split; [done|].
    intros (i & o & f & Ho & Hf & Hk & Hk'). congruence.
  - lia.
Qed.

(** The cursor passes a group that has no unit left. *)
Lemma alloc_inv_skip p b info res z :
  alloc_inv orig p b info res ->
  info !! (p mod length orig)%nat = Some z -> lowbit z = 0 ->
  alloc_inv orig (S p) b info res.
Proof.
  intros [Hlen Hgroups Hnn Hres Hunits Hpop] Hz Hlow.
  split; try done.
  intros i o Ho. destruct (Hgroups i o Ho) as (f & Hf & [G1 G2 G3 G4]).
  exists f. split; [done|]. split; try done.
  cbn [quota]. destruct (Nat.eqb_spec (p mod length orig) i) as [E|NE]; [|lia].
  rewrite E in Hz. assert (f = z) as -> by congruence.
  apply (proj1 (lowbit_zero_iff z G1)) in Hlow. subst z.
  change (popcount 0) with 0 in *. lia.
Qed.

Lemma alloc_inv_skip_all d : forall p b info res,
  alloc_inv orig p b info res -> all_empty_from info p d ->
  alloc_inv orig (p + d) b info res.
Proof.
  induction d as [|d IH]; intros p b info res Hinv Hskip.
  - by rewrite Nat.add_0_r.
  - rewrite Nat.add_succ_r.
    destruct (Hskip d ltac:(lia)) as (z & Hz & Hlow).
    rewrite (inv_length _ _ _ _ _ Hinv) in Hz.
    apply (alloc_inv_skip _ _ _ _ z); [|done|done].
    apply IH; [done|]. intros j Hj. apply Hskip. lia.
Qed.

(** The cursor takes the rightmost unit of the group it is on. *)
Lemma alloc_inv_pick p b info res m :
  alloc_inv orig p b info res ->
  info !! (p mod length orig)%nat = Some m -> lowbit m <> 0 ->
  alloc_inv orig (S p) (b + 1) (<[(p mod length orig)%nat := m - lowbit m]> info)
    (Z.lor res (lowbit m)).
Proof.
  intros [Hlen Hgroups Hnn Hres Hunits Hpop] Hm Hlow.
  set (g := (p mod length orig)%nat) in *.
  assert (g < length orig)%nat as Hg by (apply Nat.mod_upper_bound; lia).
  destruct (lookup_lt_is_Some_2 orig g Hg) as [o Ho].
  destruct (Hgroups g o Ho) as (f & Hf & [G1 G2 G3 G4]).
  assert (f = m) as -> by congruence.
  assert (0 < m) as Hpos.
  { destruct (Z.eq_dec m 0) as [->|]; [by contradict Hlow | lia]. }
  destruct (pick_bits m Hpos) as (k & Hk & Hpow & Hbit & Hmin & Hlowbits & Hrest).
  destruct (sub_lowbit_spec m Hpos) as (Hnn' & _ & _ & Hcount).
  assert (forall i, Z.testbit (Z.lor res (lowbit m)) i = Z.testbit res i || (i =? k))
    as Hres' by (intros i; by rewrite Z.lor_spec, Hlowbits).
  split.
  - by rewrite length_insert.
  - intros i o' Ho'. destruct (decide (i = g)) as [->|Hne].
    + assert (o' = o) as -> by congruence.
      exists (m - lowbit m). split; [apply list_lookup_insert_eq; lia|].
      split.
      * done.
      * intros j. rewrite Hrest. intros [Hj _]%andb_true_iff. by apply G2.
      * cbn [quota]. fold g. rewrite Nat.eqb_refl.
        pose proof (popcount_nonneg (m - lowbit m)). lia.
      * intros a c Ha Ha' Hc. rewrite Hrest in Ha', Hc.
        apply andb_true_iff in Hc as [Hc Hck].
        destruct (Z.testbit m a) eqn:Hma.
        -- simpl in Ha'. apply negb_false_iff, Z.eqb_eq in Ha'. subst a.
           apply negb_true_iff, Z.eqb_neq in Hck.
           destruct (Z.lt_ge_cases c k) as [Hlt|Hge]; [|lia].
           destruct (Z.lt_ge_cases c 0) as [Hneg|Hc0].
           ++ rewrite Z.testbit_neg_r in Hc by done. discriminate.
           ++ rewrite Hmin in Hc by lia. discriminate.
        -- by apply G4.
    + destruct (Hgroups i o' Ho') as (f & Hf' & [F1 F2 F3 F4]).
      exists f. split; [by rewrite list_lookup_insert_ne|].
      split; try done. cbn [quota]. fold g.
      destruct (Nat.eqb_spec g i); [congruence | lia].
  - apply Z.lor_nonneg. split; [done | apply lowbit_nonneg].
  - intros j. rewrite Hres'. split.
    + intros [Hj|Hj]%orb_true_iff.
      * apply Hres in Hj as (i & o' & f & Ho' & Hf' & Hoj & Hfj).
        destruct (decide (i = g)) as [->|Hne].
        -- assert (f = m) as -> by congruence.
           exists g, o', (m - lowbit m). repeat split; try done.
           ++ apply list_lookup_insert_eq. lia.
           ++ by rewrite Hrest, Hfj.
        -- exists i, o', f. repeat split; try done. by rewrite list_lookup_insert_ne.
      * apply Z.eqb_eq in Hj. subst j.
        exists g, o, (m - lowbit m). repeat split; try done.
        -- apply list_lookup_insert_eq. lia.
        -- by apply G2.
        -- by rewrite Hrest, Z.eqb_refl, andb_false_r.
    + intros (i & o' & f & Ho' & Hf' & Hoj & Hfj).
      destruct (decide (i = g)) as [->|Hne].
      * rewrite list_lookup_insert_eq in Hf' by lia. injection Hf' as <-.
        rewrite Hrest in Hfj. apply andb_false_iff in Hfj as [Hfj|Hfj].
        -- apply orb_true_iff. left. apply Hres. by exists g, o', m.
        -- apply orb_true_iff. right. by apply negb_false_iff in Hfj.
      * rewrite list_lookup_insert_ne in Hf' by done.
        apply orb_true_iff. left. apply Hres. by exists i, o', f.
  - rewrite (units_insert _ _ m) by done. lia.
  - intros Hdisj. rewrite popcount_lor_disjoint; try done.
    + rewrite (Hpop Hdisj), Hpow, popcount_pow2 by done. reflexivity.
    + apply lowbit_nonneg.
    + apply Z.bits_inj'. intros j Hj.
      rewrite Z.land_spec, Hlowbits, Z.bits_0.
      destruct (Z.eqb_spec j k) as [->|]; [|apply andb_false_r].
      rewrite andb_true_r. apply not_true_is_false. intros Hk'.
      apply Hres in Hk' as (i & o' & f & Ho' & Hf' & Hoj & Hfj).
      destruct (decide (i = g)) as [->|Hne]; [congruence|].
      apply (disjoint_bits o' o k); [by apply (Hdisj i g) | done | by apply G2].
Qed.

(** One iteration keeps the invariant and takes one unit. *)
Lemma striped_step_inv fuel st st' p b :
  alloc_inv orig p b (info st) (res st) ->
  next_gpc st = Z.of_nat (p mod length orig) ->
  striped_step fuel st = Ret st' ->
  exists p', alloc_inv orig p' (b + 1) (info st') (res st') /\
             next_gpc st' = Z.of_nat (p' mod length orig).
Proof.
  intros Hinv Hc Hstep.
  pose proof (inv_length _ _ _ _ _ Hinv) as Hlen.
  pose proof (striped_step_spec fuel st p) as Hs.
  rewrite Hlen, Hstep in Hs.
  destruct (Hs orig_nonempty Hc) as (d & m & Hd & Hskip & Hm & Hnz & ->).
  exists (S (p + d)). split; [|reflexivity]. simpl.
  apply alloc_inv_pick; [|done|done].
  by apply alloc_inv_skip_all.
Qed.

(** With a unit left and fuel for one round, an iteration completes. *)
Lemma striped_step_total fuel st p b :
  alloc_inv orig p b (info st) (res st) ->
  next_gpc st = Z.of_nat (p mod length orig) ->
  b < units orig -> (length orig <= fuel)%nat ->
  exists st', striped_step fuel st = Ret st'.
Proof.
  intros Hinv Hc Hb Hfuel.
  pose proof (inv_length _ _ _ _ _ Hinv) as Hlen.
  pose proof (striped_step_spec fuel st p) as Hs.
  rewrite Hlen in Hs. specialize (Hs orig_nonempty Hc).
  destruct (striped_step fuel st) as [st'|e|code|]; try contradiction; [eauto|].
  exfalso. pose proof (inv_units _ _ _ _ _ Hinv) as Hu.
  rewrite units_all_empty in Hu; [lia|].
  intros i z Hz.
  assert (i < length orig)%nat as Hi by (rewrite <- Hlen; by apply lookup_lt_Some in Hz).
  destruct (cursor_reaches p (length orig) i Hi) as (j & Hj & Hji).
  destruct (Hs j ltac:(lia)) as (z' & Hz' & Hlow).
  rewrite Hlen, Hji in Hz'. assert (z' = z) as -> by congruence.
  destruct (lookup_lt_is_Some_2 orig i Hi) as [o Ho].
  destruct (inv_groups _ _ _ _ _ Hinv i o Ho) as (f & Hf & [G1 _ _ _]).
  assert (f = z) as -> by congruence.
  by apply (proj1 (lowbit_zero_iff z G1)).
Qed.

Lemma striped_loop_inv fuel iters : forall st p b,
  alloc_inv orig p b (info st) (res st) ->
  next_gpc st = Z.of_nat (p mod length orig) ->
  b + Z.of_nat iters <= units orig -> (length orig <= fuel)%nat ->
  exists st' p', striped_loop fuel iters st = Ret st' /\
    alloc_inv orig p' (b + Z.of_nat iters) (info st') (res st') /\
    next_gpc st' = Z.of_nat (p' mod length orig).
Proof.
  induction iters as [|iters IH]; intros st p b Hinv Hc Hb Hfuel.
  - exists st, p. simpl. by rewrite Z.add_0_r.
  - destruct (striped_step_total fuel st p b Hinv Hc ltac:(lia) Hfuel) as [st1 Hst1].
    destruct (striped_step_inv fuel st st1 p b Hinv Hc Hst1) as (p1 & Hinv1 & Hc1).
    destruct (IH st1 p1 (b + 1) Hinv1 Hc1 ltac:(lia) Hfuel) as (st' & p' & Hloop & Hinv' & Hc').
    exists st', p'. cbn [striped_loop]. rewrite Hst1. cbn [bind].
    split; [done|]. split; [|done].
    by replace (b + Z.of_nat (S iters)) with (b + 1 + Z.of_nat iters) by lia.
Qed.

(** With fewer units left than iterations to go, the loop never completes:
    once the topology is consumed the scan finds no unit and does not stop. *)
Lemma striped_loop_exhausted fuel iters : forall st p b,
  alloc_inv orig p b (info st) (res st) ->
  next_gpc st = Z.of_nat (p mod length orig) ->
  units orig - b < Z.of_nat iters ->
  striped_loop fuel iters st = OutOfFuel.
Proof.
  induction iters as [|iters IH]; intros st p b Hinv Hc Hb.
  - pose proof (inv_units _ _ _ _ _ Hinv). pose proof (units_nonneg (info st)). lia.
  - cbn [striped_loop].
    pose proof (inv_length _ _ _ _ _ Hinv) as Hlen.
    pose proof (striped_step_spec fuel st p) as Hs.
    rewrite Hlen in Hs. specialize (Hs orig_nonempty Hc).
    destruct (striped_step fuel st) as [st1|e|code|] eqn:Hstep;
      try contradiction; [|reflexivity].
    destruct (striped_step_inv fuel st st1 p b Hinv Hc Hstep) as (p1 & Hinv1 & Hc1).
    cbn [bind]. apply (IH st1 p1 (b + 1) Hinv1 Hc1). lia.
Qed.

(** The units taken from a group, when no unit is in two groups. *)
Lemma taken_from_group p b info res i o f :
  alloc_inv orig p b info res -> disjoint orig ->
  orig !! i = Some o -> info !! i = Some f ->
  Z.land res o = Z.ldiff o f.
Proof.
  intros Hinv Hdisj Ho Hf. apply Z.bits_inj'. intros k Hk.
  rewrite Z.land_spec, Z.ldiff_spec.
  destruct (Z.testbit o k) eqn:Hok; [|apply andb_false_r].
  rewrite andb_true_r. simpl.
  destruct (Z.testbit f k) eqn:Hfk; simpl.
  - apply not_true_is_false. intros Hres.
    apply (inv_res _ _ _ _ _ Hinv) in Hres as (j & o' & f' & Ho' & Hf' & Hok' & Hfk').
    destruct (decide (j = i)) as [->|Hne]; [congruence|].
    apply (disjoint_bits o' o k); [by apply (Hdisj j i) | done | done].
  - apply (inv_res _ _ _ _ _ Hinv). by exists i, o, f.
Qed.

Lemma taken_count p b info res i o :
  alloc_inv orig p b info res -> disjoint orig ->
  orig !! i = Some o ->
  popcount (Z.land res o) = Z.min (popcount o) (quota (length orig) p i).
Proof.
  intros Hinv Hdisj Ho.
  destruct (inv_groups _ _ _ _ _ Hinv i o Ho) as (f & Hf & [G1 G2 G3 G4]).
  rewrite (taken_from_group p b info res i o f) by done.
  rewrite popcount_ldiff_subset; eauto.
Qed.

End StripedInvariant.
(** ** The striped allocator on a well-formed topology *)

Lemma nonempty_length (topo : list Z) : topo <> [] -> (0 < length topo)%nat.
Proof. destruct topo; simpl; [done | lia]. Qed.

(** Enough units: the allocator returns, and the invariant holds of what it
    has selected. *)
Lemma get_cu_mask_striped_inv hw fuel n total dev :
  get_gpc_info hw dev <> [] ->
  forallb is_mask64 (get_gpc_info hw dev) = true ->
  0 <= n <= units (get_gpc_info hw dev) ->
  (length (get_gpc_info hw dev) <= fuel)%nat ->
  exists p info sel,
    get_cu_mask hw fuel n total true dev = Ret (Z.lnot sel) /\
    alloc_inv (get_gpc_info hw dev) p n info sel.
Proof.
  intros Hne Hwf Hn Hfuel. set (topo := get_gpc_info hw dev) in *.
  pose proof (nonempty_length topo Hne) as HL.
  pose proof (forallb_mask64_nonneg topo Hwf) as Hnn.
  destruct (striped_loop_inv topo HL fuel (Z.to_nat n)
              {| info := topo; next_gpc := 0; res := 0 |} 0%nat 0)
    as (st & p & Hloop & Hinv & _).
  - by apply alloc_inv_init.
  - simpl. by rewrite Nat.Div0.mod_0_l.
  - lia.
  - done.
  - exists p, (info st), (res st). unfold get_cu_mask. simpl negb. cbv iota.
    fold topo. rewrite Hloop. cbn [bind]. split; [done|].
    by replace n with (0 + Z.of_nat (Z.to_nat n)) at 1 by lia.
Qed.

(** More units asked for than the topology has: the allocator does not
    return, whatever the fuel. *)
Lemma get_cu_mask_exhausted hw fuel n total dev :
  get_gpc_info hw dev <> [] ->
  forallb is_mask64 (get_gpc_info hw dev) = true ->
  units (get_gpc_info hw dev) < n ->
  get_cu_mask hw fuel n total true dev = OutOfFuel.
Proof.
  intros Hne Hwf Hn. set (topo := get_gpc_info hw dev) in *.
  pose proof (nonempty_length topo Hne) as HL.
  pose proof (forallb_mask64_nonneg topo Hwf) as Hnn.
  pose proof (units_nonneg topo).
  unfold get_cu_mask. simpl negb. cbv iota. fold topo.
  rewrite (striped_loop_exhausted topo HL fuel (Z.to_nat n) _ 0%nat 0); try done.
  - by apply alloc_inv_init.
  - simpl. by rewrite Nat.Div0.mod_0_l.
  - lia.
Qed.

(** ** More fuel does not change a completed run *)

Lemma scan_fuel_mono f : forall f' info c,
  (f <= f')%nat -> scan f info c <> OutOfFuel -> scan f' info c = scan f info c.
Proof.
  induction f as [|f IH]; intros f' info c Hle Hdone; [done|].
  destruct f' as [|f']; [lia|]. cbn [scan] in *.
  destruct (PyList.getitem info c) as [m| | |]; try done. cbn [bind] in *.
  destruct (lowbit m =? 0); [|done]. apply IH; [lia | done].
Qed.

Lemma striped_step_fuel_mono f f' st :
  (f <= f')%nat -> striped_step f st <> OutOfFuel ->
  striped_step f' st = striped_step f st.
Proof.
  intros Hle Hdone. unfold striped_step in *.
  rewrite (scan_fuel_mono f f'); [done | done |].
  intros Hscan. by rewrite Hscan in Hdone.
Qed.

Lemma striped_loop_fuel_mono f f' iters : forall st,
  (f <= f')%nat -> striped_loop f iters st <> OutOfFuel ->
  striped_loop f' iters st = striped_loop f iters st.
Proof.
  induction iters as [|iters IH]; intros st Hle Hdone; [done|].
  cbn [striped_loop] in *.
  rewrite (striped_step_fuel_mono f f'); [| done |].
  - destruct (striped_step f st) as [st1| | |]; try done. cbn [bind] in *. by apply IH.
  - intros Hstep. by rewrite Hstep in Hdone.
Qed.

Lemma get_cu_mask_fuel_mono hw f f' n total striped dev :
  (f <= f')%nat -> get_cu_mask hw f n total striped dev <> OutOfFuel ->
  get_cu_mask hw f' n total striped dev = get_cu_mask hw f n total striped dev.
Proof.
  intros Hle Hdone. unfold get_cu_mask in *. destruct (negb striped); [done|].
  rewrite (striped_loop_fuel_mono f f'); [done | done |].
  intros Hloop. by rewrite Hloop in Hdone.
Qed.

(** The allocator reads the hardware module through the topology only. *)
Lemma get_cu_mask_topology hw1 hw2 fuel n total1 total2 striped dev1 dev2 :
  get_gpc_info hw1 dev1 = get_gpc_info hw2 dev2 ->
  get_cu_mask hw1 fuel n total1 striped dev1 = get_cu_mask hw2 fuel n total2 striped dev2.
Proof. intros E. unfold get_cu_mask. by rewrite E. Qed.
(** * Facts about the allocator's result *)

Lemma scan_bit_nonneg fuel : forall info c bit c',
  scan fuel info c = Ret (bit, c') -> 0 <= bit.
Proof.
  induction fuel as [|fuel IH]; intros info c bit c' H; [discriminate|].
  cbn [scan] in H. destruct (PyList.getitem info c) as [m| | |]; try discriminate.
  cbn [bind] in H. destruct (lowbit m =? 0).
  - by apply IH in H.
  - injection H as <- _. apply lowbit_nonneg.
Qed.

Lemma striped_step_res_nonneg fuel st st' :
  striped_step fuel st = Ret st' -> 0 <= res st -> 0 <= res st'.
Proof.
  unfold striped_step. intros H Hnn.
  destruct (scan fuel (info st) (next_gpc st)) as [[bit c]| | |] eqn:Hscan;
    try discriminate.
  cbn [bind] in H.
  destruct (PyList.getitem (info st) (c - 1)) as [old| | |]; try discriminate.
  cbn [bind] in H.
  destruct (PyList.setitem (info st) (c - 1) (old - bit)) as [info'| | |];
    try discriminate.
  injection H as <-. simpl. apply Z.lor_nonneg. split; [done|].
  by apply scan_bit_nonneg in Hscan.
Qed.

Lemma striped_loop_res_nonneg fuel iters : forall st st',
  striped_loop fuel iters st = Ret st' -> 0 <= res st -> 0 <= res st'.
Proof.
  induction iters as [|iters IH]; intros st st' H Hnn.
  - by injection H as <-.
  - cbn [striped_loop] in H.
    destruct (striped_step fuel st) as [st1| | |] eqn:Hstep; try discriminate.
    apply (IH st1 st' H). by apply (striped_step_res_nonneg fuel st).
Qed.

(** Whatever the mode and the topology, a returned mask is the complement of
    a non-negative set of selected units. *)
Lemma get_cu_mask_complement hw fuel n total striped dev mask :
  get_cu_mask hw fuel n total striped dev = Ret mask ->
  exists sel, 0 <= sel /\ mask = Z.lnot sel.
Proof.
  destruct striped.
  - unfold get_cu_mask. simpl negb. cbv iota.
    destruct (striped_loop _ _ _) as [st| | |] eqn:Hloop; try discriminate.
    intros [= <-]. exists (res st). split; [|done].
    by apply (striped_loop_res_nonneg _ _ _ _ Hloop).
  - rewrite get_cu_mask_contiguous. intros [= <-].
    exists (Z.ones (Z.max 0 n)). split; [|done].
    rewrite Z.ones_equiv. pose proof (Z.pow_pos_nonneg 2 (Z.max 0 n)). lia.
Qed.

(** ** Counting the ones of [bin] *)

Lemma count_app s1 s2 c :
  Fmt.count (s1 ++ s2)%string c = Fmt.count s1 c + Fmt.count s2 c.
Proof. induction s1 as [|a s1 IH]; simpl; [reflexivity | rewrite IH; lia]. Qed.

Lemma count_pos_bin p : forall acc,
  Fmt.count (Fmt.pos_bin p acc) "1" = pos_popcount p + Fmt.count acc "1".
Proof.
  induction p as [p IH|p IH|]; intros acc; simpl.
  - rewrite IH. simpl. lia.
  - rewrite IH. simpl. lia.
  - lia.
Qed.

Lemma count_bin x : 0 <= x -> Fmt.count (Fmt.bin x) "1" = popcount x.
Proof.
  destruct x as [|p|p]; intros H; [reflexivity| |lia].
  unfold Fmt.bin. rewrite count_app, count_pos_bin. simpl. lia.
Qed.
(** * The contiguous allocator *)

(** C4. For every [n] with [0 <= n <= total_count <= 64], the contiguous
    allocator returns a mask whose bitwise complement, truncated to 64 bits,
    has exactly [n] set bits, and these are the bits 0 to [n - 1]. *)
Theorem contiguous_enables_lowest (hw : pysmctrl_module) (fuel : nat) (n total dev : Z) :
  0 <= n -> n <= total -> total <= 64 ->
  exists mask,
    get_cu_mask hw fuel n total false dev = Ret mask /\
    popcount (Z.land (Z.lnot mask) 0xffffffffffffffff) = n /\
    forall i, Z.testbit (Z.land (Z.lnot mask) 0xffffffffffffffff) i = true <-> 0 <= i < n.
Proof.
  intros Hn Htotal H64. exists (Z.lnot (Z.ones n)).
  rewrite get_cu_mask_contiguous, Z.max_r by lia.
  split; [reflexivity|].
  assert (Z.land (Z.lnot (Z.lnot (Z.ones n))) 0xffffffffffffffff = Z.ones n) as ->.
  { rewrite Z.lnot_involutive, FmtFacts.land_mask64. apply Z.mod_small.
    rewrite Z.ones_equiv. pose proof (Z.pow_pos_nonneg 2 n).
    pose proof (Z.pow_le_mono_r 2 n 64). lia. }
  split; [by apply popcount_ones|].
  intros i. rewrite Z.testbit_ones by lia. lia.
Qed.

Lemma contiguous_enables_lowest_witness :
  exists mask,
    get_cu_mask {| get_gpc_info := fun _ => []; get_tpc_info := fun _ => 4; truthy := true |}
      0 3 4 false 0 = Ret mask /\
    popcount (Z.land (Z.lnot mask) 0xffffffffffffffff) = 3 /\
    forall i, Z.testbit (Z.land (Z.lnot mask) 0xffffffffffffffff) i = true <-> 0 <= i < 3.
Proof. apply contiguous_enables_lowest; lia. Defined.

(** * The hexadecimal encoding of a mask *)

(** C6. For every integer mask, negative ones included, the encoding is
    exactly 16 hexadecimal characters, and decoding it in base 16 gives the
    mask truncated to 64 bits. *)
Theorem hex_string_roundtrip (m : Z) :
  String.length (cu_mask_to_hex_string m) = 16%nat /\
  Fmt.all_chars Fmt.is_hex_digit (cu_mask_to_hex_string m) = true /\
  Fmt.decode_hex (cu_mask_to_hex_string m) = Some (m mod 2 ^ 64).
Proof. exact (FmtFacts.hex_mask_spec m). Qed.

(** * The configuration *)

(** C5. For every mask the allocator returns, the configuration has exactly
    one benchmark entry; its [sm_mask] is the 16-digit hexadecimal string of
    the mask, its [label] the decimal string of the number of set bits of the
    mask's complement, and its [log_name] is [cu_mask_<hex>.json], with
    [striped_] before the digits exactly when striping was asked for. *)
Theorem config_of_allocated_mask (hw : pysmctrl_module) (fuel : nat)
    (n total : Z) (striped : bool) (dev : Z) (mask : Z) :
  get_cu_mask hw fuel n total striped dev = Ret mask ->
  exists entry hex,
    member "benchmarks" (generate_config mask striped) = Some (JList [entry]) /\
    member "sm_mask" entry = Some (JStr hex) /\
    String.length hex = 16%nat /\
    Fmt.all_chars Fmt.is_hex_digit hex = true /\
    Fmt.decode_hex hex = Some (mask mod 2 ^ 64) /\
    member "label" entry = Some (JStr (Fmt.str (popcount (Z.lnot mask)))) /\
    member "log_name" entry =
      Some (JStr ("cu_mask_" ++ (if striped then "striped_" else "") ++ hex ++ ".json")%string).
Proof.
  intros Hmask. destruct (get_cu_mask_complement _ _ _ _ _ _ _ Hmask) as (sel & Hsel & ->).
  exists (plugin_config (Z.lnot sel) striped), (cu_mask_to_hex_string (Z.lnot sel)).
  pose proof (FmtFacts.hex_mask_spec (Z.lnot sel)) as (Hlen & Hhex & Hdec).
  repeat split; try done.
  - cbn. by rewrite count_bin by (rewrite Z.lnot_involutive; exact Hsel).
  - cbn. by destruct striped.
Qed.

Lemma config_of_allocated_mask_witness :
  exists entry hex,
    member "benchmarks" (generate_config (-20) true) = Some (JList [entry]) /\
    member "sm_mask" entry = Some (JStr hex) /\
    String.length hex = 16%nat /\
    Fmt.all_chars Fmt.is_hex_digit hex = true /\
    Fmt.decode_hex hex = Some ((-20) mod 2 ^ 64) /\
    member "label" entry = Some (JStr (Fmt.str (popcount (Z.lnot (-20))))) /\
    member "log_name" entry =
      Some (JStr ("cu_mask_" ++ "striped_" ++ hex ++ ".json")%string).
Proof.
  apply (config_of_allocated_mask
           {| get_gpc_info := fun _ => [0x0f; 0xf0]; get_tpc_info := fun _ => 8;
              truthy := true |} 2 3 8 true 0 (-20)).
  reflexivity.
Defined.
(** * The striped allocator *)

(** C1, as stated, fails on a topology in which a unit belongs to two groups:
    with the groups [1] and [1] (two set bits in all) and two units asked
    for, the allocator takes bit 0 from each group and so selects one bit. *)
Lemma striped_overlap_counterexample :
  let hw := {| get_gpc_info := fun _ => [1; 1]; get_tpc_info := fun _ => 2;
               truthy := true |} in
  get_gpc_info hw 0 <> [] /\
  forallb is_mask64 (get_gpc_info hw 0) = true /\
  2 <= units (get_gpc_info hw 0) /\
  get_cu_mask hw 2 2 2 true 0 = Ret (Z.lnot 1) /\
  ~ (exists sel, get_cu_mask hw 2 2 2 true 0 = Ret (Z.lnot sel) /\ popcount sel = 2).
Proof.
  cbv zeta. repeat split; try done.
  intros (sel & Hret & Hpop).
  change (get_cu_mask _ 2 2 2 true 0) with (Ret (Z.lnot 1)) in Hret.
  injection Hret as E.
  apply (f_equal Z.lnot) in E. rewrite !Z.lnot_involutive in E. subst sel.
  discriminate Hpop.
Qed.

(** C1 (amended).  For a non-empty topology of 64-bit group masks no two of
    which share a bit, and [0 <= active_count <=] its number of set bits, the
    striped allocator (given fuel for one round of the groups) returns the
    complement of a set [sel] of exactly [active_count] bits of the groups.
    The bits are taken round-robin in descriptor order: after [rounds] full
    rounds and with the cursor on group [cursor], group [i] has given
    [rounds] units, one more if [i < cursor], or all its units if it has
    fewer.  Hence no group has given more than another plus one unless that
    other one is exhausted, the extra units are in the groups of lowest
    index, and in a group the units given are below the units left. *)
Theorem striped_round_robin (hw : pysmctrl_module) (fuel : nat) (n total dev : Z) :
  get_gpc_info hw dev <> [] ->
  forallb is_mask64 (get_gpc_info hw dev) = true ->
  disjointb (get_gpc_info hw dev) = true ->
  0 <= n <= units (get_gpc_info hw dev) ->
  (length (get_gpc_info hw dev) <= fuel)%nat ->
  exists (sel rounds : Z) (cursor : nat),
    get_cu_mask hw fuel n total true dev = Ret (Z.lnot sel) /\
    0 <= sel /\ popcount sel = n /\
    (forall k, Z.testbit sel k = true ->
       exists g, g ∈ get_gpc_info hw dev /\ Z.testbit g k = true) /\
    0 <= rounds /\ (cursor < length (get_gpc_info hw dev))%nat /\
    (forall i g, get_gpc_info hw dev !! i = Some g ->
       popcount (Z.land sel g) = Z.min (popcount g) (share rounds cursor i)) /\
    (forall i j gi gj,
       get_gpc_info hw dev !! i = Some gi -> get_gpc_info hw dev !! j = Some gj ->
       popcount (Z.land sel gi) <= popcount (Z.land sel gj) + 1 \/
       popcount (Z.land sel gj) = popcount gj) /\
    (forall i j gi gj,
       get_gpc_info hw dev !! i = Some gi -> get_gpc_info hw dev !! j = Some gj ->
       (i < j)%nat ->
       popcount (Z.land sel gj) <= popcount (Z.land sel gi) \/
       popcount (Z.land sel gi) = popcount gi) /\
    (forall g a b, g ∈ get_gpc_info hw dev ->
       Z.testbit (Z.land sel g) a = true ->
       Z.testbit g b = true -> Z.testbit sel b = false -> a < b).
Proof.
  intros Hne Hwf Hdisjb Hn Hfuel.
  destruct (get_cu_mask_striped_inv hw fuel n total dev Hne Hwf Hn Hfuel)
    as (p & info' & sel & Hret & Hinv).
  set (topo := get_gpc_info hw dev) in *.
  pose proof (nonempty_length topo Hne) as HL.
  pose proof (forallb_mask64_nonneg topo Hwf) as Hnn.
  pose proof (disjointb_disjoint topo Hdisjb) as Hdisj.
  assert (forall i g, topo !! i = Some g ->
            popcount (Z.land sel g)
            = Z.min (popcount g) (share (Z.of_nat (p / length topo)) (p mod length topo) i))
    as Hshare.
  { intros i g Hg. rewrite (taken_count topo Hnn p n info' sel i g) by done.
    rewrite quota_closed; [done | by apply lookup_lt_Some in Hg]. }
  exists sel, (Z.of_nat (p / length topo)), (p mod length topo)%nat.
  split; [done|]. split; [apply (inv_res_nonneg _ _ _ _ _ Hinv)|].
  split; [by apply (inv_popcount _ _ _ _ _ Hinv)|].
  split.
  { intros k Hk. apply (inv_res _ _ _ _ _ Hinv) in Hk as (i & o & f & Ho & _ & Hok & _).
    exists o. split; [|done]. apply list_elem_of_lookup. eauto. }
  split; [lia|]. split; [apply Nat.mod_upper_bound; lia|].
  split; [exact Hshare|].
  split.
  { intros i j gi gj Hi Hj. rewrite (Hshare i gi Hi), (Hshare j gj Hj).
    unfold share. pose proof (popcount_nonneg gi). pose proof (popcount_nonneg gj).
    destruct (i <? p mod length topo)%nat, (j <? p mod length topo)%nat; lia. }
  split.
  { intros i j gi gj Hi Hj Hij. rewrite (Hshare i gi Hi), (Hshare j gj Hj).
    unfold share.
    destruct (Nat.ltb_spec i (p mod length topo)), (Nat.ltb_spec j (p mod length topo)); lia. }
  intros g a b Hg Ha Hb Hsel.
  apply list_elem_of_lookup in Hg as [i Hi].
  destruct (inv_groups _ _ _ _ _ Hinv i g Hi) as (f & Hf & [G1 G2 G3 G4]).
  rewrite (taken_from_group topo p n info' sel i g f) in Ha by done.
  rewrite Z.ldiff_spec in Ha. apply andb_true_iff in Ha as [Hga Hfa].
  apply negb_true_iff in Hfa.
  apply (G4 a b); [done | done |].
  destruct (Z.testbit f b) eqn:Hfb; [done|].
  assert (Z.testbit sel b = true) as Hsel'
    by (apply (inv_res _ _ _ _ _ Hinv); by exists i, g, f).
  congruence.
Qed.

Lemma striped_round_robin_witness :
  exists (sel rounds : Z) (cursor : nat),
    get_cu_mask {| get_gpc_info := fun _ => [0x0f; 0x30; 0x700]; get_tpc_info := fun _ => 9;
                   truthy := true |} 3 7 9 true 0 = Ret (Z.lnot sel) /\
    0 <= sel /\ popcount sel = 7 /\
    (forall k, Z.testbit sel k = true ->
       exists g, g ∈ [0x0f; 0x30; 0x700] /\ Z.testbit g k = true) /\
    0 <= rounds /\ (cursor < 3)%nat /\
    (forall i g, [0x0f; 0x30; 0x700] !! i = Some g ->
       popcount (Z.land sel g) = Z.min (popcount g) (share rounds cursor i)) /\
    (forall i j gi gj,
       [0x0f; 0x30; 0x700] !! i = Some gi -> [0x0f; 0x30; 0x700] !! j = Some gj ->
       popcount (Z.land sel gi) <= popcount (Z.land sel gj) + 1 \/
       popcount (Z.land sel gj) = popcount gj) /\
    (forall i j gi gj,
       [0x0f; 0x30; 0x700] !! i = Some gi -> [0x0f; 0x30; 0x700] !! j = Some gj ->
       (i < j)%nat ->
       popcount (Z.land sel gj) <= popcount (Z.land sel gi) \/
       popcount (Z.land sel gi) = popcount gi) /\
    (forall g a b, g ∈ [0x0f; 0x30; 0x700] ->
       Z.testbit (Z.land sel g) a = true ->
       Z.testbit g b = true -> Z.testbit sel b = false -> a < b).
Proof.
  apply (striped_round_robin
           {| get_gpc_info := fun _ => [0x0f; 0x30; 0x700]; get_tpc_info := fun _ => 9;
              truthy := true |} 3 7 9 0).
  - discriminate.
  - reflexivity.
  - reflexivity.
  - simpl. lia.
  - simpl. lia.
Defined.

(** C2, on the code.  Ten units asked of a topology with eight ([0x0f] and
    [0xf0]): the allocator raises nothing, and does not return either: after
    the eighth unit every group is 0 and the scan goes round for ever,
    whatever the fuel.  The sweep step that asks for the ten units prints
    its first line and gets no further: the Runner is not started. *)
Theorem insufficient_units_never_returns :
  let hw := {| get_gpc_info := fun _ => [0x0f; 0xf0]; get_tpc_info := fun _ => 8;
               truthy := true |} in
  units (get_gpc_info hw 0) = 8 /\
  (forall fuel total, get_cu_mask hw fuel 10 total true 0 = OutOfFuel) /\
  (forall runner fuel,
     let args := {| arg_cu_count := Some 10; arg_start_count := 0;
                    arg_stripe := true; arg_device := 0 |} in
     snd (sweep_step hw runner fuel args 10 9 fresh) = OutOfFuel /\
     runner_runs (events (fst (sweep_step hw runner fuel args 10 9 fresh))) = []).
Proof.
  cbv zeta.
  assert (forall fuel total,
            get_cu_mask {| get_gpc_info := fun _ => [0x0f; 0xf0];
                           get_tpc_info := fun _ => 8; truthy := true |}
              fuel 10 total true 0 = OutOfFuel) as Hhang.
  { intros fuel total. apply get_cu_mask_exhausted; simpl; try done. }
  split; [reflexivity|]. split; [exact Hhang|].
  intros runner fuel. unfold sweep_step, pbind, print, emit, lift. simpl.
  change (9 + 1) with 10. rewrite Hhang. simpl. done.
Qed.

(** C7. Striped allocation is deterministic.  Two calls that get the same
    topology from the hardware, whatever the other arguments: with the same
    fuel they have the same outcome; when both return, they return the same
    mask; and on a well-formed topology with enough units both, given fuel
    for one round of the groups, do return it. *)
Theorem striped_allocation_deterministic (hw1 hw2 : pysmctrl_module)
    (fuel1 fuel2 : nat) (n total1 total2 dev1 dev2 : Z) :
  get_gpc_info hw1 dev1 = get_gpc_info hw2 dev2 ->
  (fuel1 = fuel2 ->
   get_cu_mask hw1 fuel1 n total1 true dev1 = get_cu_mask hw2 fuel2 n total2 true dev2) /\
  (forall m1 m2,
     get_cu_mask hw1 fuel1 n total1 true dev1 = Ret m1 ->
     get_cu_mask hw2 fuel2 n total2 true dev2 = Ret m2 -> m1 = m2) /\
  (get_gpc_info hw1 dev1 <> [] ->
   forallb is_mask64 (get_gpc_info hw1 dev1) = true ->
   0 <= n <= units (get_gpc_info hw1 dev1) ->
   (length (get_gpc_info hw1 dev1) <= fuel1)%nat ->
   (length (get_gpc_info hw1 dev1) <= fuel2)%nat ->
   exists m, get_cu_mask hw1 fuel1 n total1 true dev1 = Ret m /\
             get_cu_mask hw2 fuel2 n total2 true dev2 = Ret m).
Proof.
  intros Htopo. split; [|split].
  - intros <-. by apply get_cu_mask_topology.
  - intros m1 m2 H1 H2.
    rewrite (get_cu_mask_topology hw2 hw1 fuel2 n total2 total1 true dev2 dev1) in H2 by done.
    destruct (Nat.le_ge_cases fuel1 fuel2) as [Hle|Hle].
    + rewrite (get_cu_mask_fuel_mono hw1 fuel1 fuel2) in H2; [congruence | done |].
      by rewrite H1.
    + rewrite (get_cu_mask_fuel_mono hw1 fuel2 fuel1) in H1; [congruence | done |].
      by rewrite H2.
  - intros Hne Hwf Hn Hf1 Hf2.
    destruct (get_cu_mask_striped_inv hw1 fuel1 n total1 dev1 Hne Hwf Hn Hf1)
      as (p & info' & sel & Hret & _).
    exists (Z.lnot sel). split; [done|].
    rewrite (get_cu_mask_topology hw2 hw1 fuel2 n total2 total1 true dev2 dev1) by done.
    destruct (Nat.le_ge_cases fuel1 fuel2) as [Hle|Hle].
    + rewrite (get_cu_mask_fuel_mono hw1 fuel1 fuel2); [done | done |]. by rewrite Hret.
    + destruct (get_cu_mask_striped_inv hw1 fuel2 n total1 dev1 Hne Hwf Hn Hf2)
        as (p2 & info2 & sel2 & Hret2 & _).
      rewrite <- (get_cu_mask_fuel_mono hw1 fuel2 fuel1); [done | done |]. by rewrite Hret2.
Qed.

Lemma striped_allocation_deterministic_witness :
  let hw1 := {| get_gpc_info := fun _ => [0x0f; 0xf0]; get_tpc_info := fun _ => 8;
                truthy := true |} in
  let hw2 := {| get_gpc_info := fun d => if d =? 1 then [0x0f; 0xf0] else [];
                get_tpc_info := fun _ => 0; truthy := true |} in
  (2%nat = 5%nat -> get_cu_mask hw1 2 3 8 true 0 = get_cu_mask hw2 5 3 4 true 1) /\
  (forall m1 m2, get_cu_mask hw1 2 3 8 true 0 = Ret m1 ->
                 get_cu_mask hw2 5 3 4 true 1 = Ret m2 -> m1 = m2) /\
  (get_gpc_info hw1 0 <> [] ->
   forallb is_mask64 (get_gpc_info hw1 0) = true ->
   0 <= 3 <= units (get_gpc_info hw1 0) ->
   (length (get_gpc_info hw1 0) <= 2)%nat ->
   (length (get_gpc_info hw1 0) <= 5)%nat ->
   exists m, get_cu_mask hw1 2 3 8 true 0 = Ret m /\ get_cu_mask hw2 5 3 4 true 1 = Ret m).
Proof.
  cbv zeta. apply striped_allocation_deterministic. reflexivity.
Defined.
(** * The sweep *)

Lemma runner_runs_app evs1 evs2 :
  runner_runs (evs1 ++ evs2) = runner_runs evs1 ++ runner_runs evs2.
Proof. unfold runner_runs. apply flat_map_app. Qed.

Lemma range_length a b : length (range a b) = Z.to_nat (b - a).
Proof. unfold range. by rewrite length_map, length_seq. Qed.

Lemma range_bounds a b x : x ∈ range a b -> a <= x < b.
Proof.
  unfold range. intros (i & -> & Hi)%list_elem_of_fmap.
  apply list_elem_of_In, in_seq in Hi. lia.
Qed.

Section Sweep.

Variable hw : pysmctrl_module.
Variable runner : json -> proc_result.

(** What [run_process] does, in full. *)
Lemma run_process_spec (int_cu_mask : Z) (striped : bool) (w : world) :
  run_process runner int_cu_mask striped w =
  match cu_mask w with
  | None => (w, Raise (NameError "cu_mask"))
  | Some g =>
      let started := Stdout ("Starting test with CU mask " ++
                             cu_mask_to_hex_string int_cu_mask)%string in
      match runner (generate_config g striped) with
      | LaunchFailed =>
          ({| cu_count := cu_count w; cu_mask := cu_mask w;
              events := events w ++ [started] |}, Raise OSError)
      | Exited status =>
          ({| cu_count := cu_count w; cu_mask := cu_mask w;
              events := events w ++ [started; RunnerRun (generate_config g striped) status] |},
           Ret tt)
      end
  end.
Proof.
  unfold run_process, pbind, read_cu_mask, print, popen_communicate, lift, emit.
  destruct (cu_mask w) as [g|] eqn:Hg; [|reflexivity].
  destruct (runner (generate_config g striped)); cbn [events cu_count cu_mask];
    [reflexivity|].
  by rewrite <- app_assoc.
Qed.

(** A step whose allocation returns and whose Runner starts. *)
Lemma sweep_step_spec fuel args total a w m status :
  get_cu_mask hw fuel (a + 1) total (arg_stripe args) (arg_device args) = Ret m ->
  runner (generate_config m (arg_stripe args)) = Exited status ->
  sweep_step hw runner fuel args total a w =
  ({| cu_count := cu_count w; cu_mask := Some m;
      events := events w ++ step_events (arg_stripe args) a m status |}, Ret tt).
Proof.
  intros Halloc Hrun. unfold sweep_step.
  unfold pbind at 1. unfold print at 1, emit at 1.
  unfold pbind at 1. unfold lift at 1. rewrite Halloc.
  unfold pbind at 1. unfold assign_cu_mask at 1.
  unfold pbind at 1. unfold read_cu_mask at 1. cbn [cu_mask].
  unfold pbind at 1. rewrite run_process_spec. cbn [cu_mask cu_count events].
  rewrite Hrun. unfold print, emit. cbn [cu_mask cu_count events].
  unfold step_events. by rewrite <- !app_assoc.
Qed.

(** A step whose allocation does not return: nothing but the first line. *)
Lemma sweep_step_no_mask fuel args total a w :
  (forall m, get_cu_mask hw fuel (a + 1) total (arg_stripe args) (arg_device args) <> Ret m) ->
  runner_runs (events (fst (sweep_step hw runner fuel args total a w)))
  = runner_runs (events w).
Proof.
  intros Halloc. unfold sweep_step.
  unfold pbind at 1. unfold print at 1, emit at 1.
  unfold pbind at 1. unfold lift at 1.
  destruct (get_cu_mask hw fuel (a + 1) total (arg_stripe args) (arg_device args)) as [m| | |];
    [by destruct (Halloc m) | | |]; cbn [fst events];
    by rewrite runner_runs_app, app_nil_r.
Qed.

(** A sweep all of whose allocations return and whose Runner always starts
    runs to its end, one Runner run per step, in order. *)
Lemma sweep_loop_spec fuel args total xs : forall w,
  (forall a, a ∈ xs ->
     exists m, get_cu_mask hw fuel (a + 1) total (arg_stripe args) (arg_device args) = Ret m) ->
  (forall c, runner c <> LaunchFailed) ->
  exists w' tail,
    for_each xs (sweep_step hw runner fuel args total) w = (w', Ret tt) /\
    cu_count w' = cu_count w /\
    events w' = events w ++ tail /\
    Forall2 (fun a run =>
               exists m,
                 get_cu_mask hw fuel (a + 1) total (arg_stripe args) (arg_device args)
                 = Ret m /\
                 run = (generate_config m (arg_stripe args),
                        exit_status (runner (generate_config m (arg_stripe args)))))
            xs (runner_runs tail).
Proof.
  induction xs as [|a xs IH]; intros w Halloc Hrun.
  - exists w, []. simpl. unfold pret. rewrite app_nil_r.
    repeat split; try done.
  - destruct (Halloc a ltac:(left)) as [m Hm].
    destruct (runner (generate_config m (arg_stripe args))) as [|status] eqn:Hr;
      [by destruct (Hrun _ Hr)|].
    cbn [for_each]. unfold pbind at 1.
    rewrite (sweep_step_spec fuel args total a w m status Hm Hr).
    destruct (IH {| cu_count := cu_count w; cu_mask := Some m;
                    events := events w ++ step_events (arg_stripe args) a m status |})
      as (w' & tail & Hloop & Hcount & Hevents & Hruns).
    { intros a' Ha'. apply Halloc. by right. }
    { done. }
    cbn [events cu_count] in Hcount, Hevents.
    exists w', (step_events (arg_stripe args) a m status ++ tail).
    split; [done|]. split; [done|]. split; [by rewrite Hevents, <- app_assoc|].
    rewrite runner_runs_app. cbn [step_events runner_runs flat_map app].
    constructor; [|exact Hruns].
    exists m. by rewrite Hr.
Qed.

End Sweep.
(** ** The script from its first line *)

Section Main.

Variable hw : pysmctrl_module.
Variable runner : json -> proc_result.

Lemma runner_runs_prologue args total : runner_runs (prologue hw args total) = [].
Proof.
  unfold prologue.
  destruct (total <=? 0), (truthy hw && (total >? get_tpc_info hw (arg_device args)));
    reflexivity.
Qed.

(** With [--cu_count total] on the command line the script reaches the loop,
    whatever [total] is: the two range checks print and go on. *)
Lemma main_given fuel args total :
  arg_cu_count args = Some total -> total <> 0 ->
  arg_stripe args && negb (truthy hw) = false ->
  main hw runner fuel args fresh =
  for_each (range (arg_start_count args) total) (sweep_step hw runner fuel args total)
    {| cu_count := Some total; cu_mask := None; events := prologue hw args total |}.
Proof.
  intros Hcount Hne Hstripe. unfold main, prologue. rewrite Hcount, Hstripe.
  unfold given. destruct (Z.eqb_spec total 0) as [|_]; [done|].
  change (default 0 (Some total)) with total. cbn [negb].
  unfold pbind, assign_cu_count, read_cu_count, when, print, emit, pret, fresh.
  cbn [cu_count cu_mask events].
  destruct (total <=? 0); cbn [cu_count cu_mask events app];
    destruct (truthy hw); cbn [cu_count cu_mask events app andb];
    try destruct (total >? get_tpc_info hw (arg_device args));
    cbn [cu_count cu_mask events app]; reflexivity.
Qed.

Lemma allocatable_returns fuel args total a :
  allocatable hw fuel args total -> a ∈ range (arg_start_count args) total ->
  exists m, get_cu_mask hw fuel (a + 1) total (arg_stripe args) (arg_device args) = Ret m.
Proof.
  intros [Hc | (Hne & Hwf & Hstart & Hunits & Hfuel)] Ha.
  - rewrite Hc, get_cu_mask_contiguous. eauto.
  - apply range_bounds in Ha. destruct (arg_stripe args).
    + destruct (get_cu_mask_striped_inv hw fuel (a + 1) total (arg_device args))
        as (p & info' & sel & Hret & _); try done; [lia | eauto].
    + rewrite get_cu_mask_contiguous. eauto.
Qed.

(** The whole run of a sweep whose allocations return and whose Runner
    starts: it ends normally after one Runner run per value of the loop
    variable, in the order of the range, each on the configuration of the
    mask allocated for one unit more than the loop variable. *)
Lemma run_main_sweep fuel args total :
  arg_cu_count args = Some total -> total <> 0 ->
  arg_stripe args && negb (truthy hw) = false ->
  allocatable hw fuel args total ->
  (forall c, runner c <> LaunchFailed) ->
  exists evs,
    run_main hw runner fuel args = (evs, Ret tt) /\
    Forall2 (fun a run =>
               exists m,
                 get_cu_mask hw fuel (a + 1) total (arg_stripe args) (arg_device args)
                 = Ret m /\
                 run = (generate_config m (arg_stripe args),
                        exit_status (runner (generate_config m (arg_stripe args)))))
            (range (arg_start_count args) total) (runner_runs evs).
Proof.
  intros Hcount Hne Hstripe Halloc Hrun.
  destruct (sweep_loop_spec hw runner fuel args total (range (arg_start_count args) total)
              {| cu_count := Some total; cu_mask := None; events := prologue hw args total |})
    as (w' & tail & Hloop & _ & Hevents & Hruns).
  { intros a Ha. by apply (allocatable_returns fuel args total a). }
  { done. }
  exists (events w'). unfold run_main. rewrite (main_given fuel args total) by done.
  rewrite Hloop. split; [done|].
  cbn [events] in Hevents. by rewrite Hevents, runner_runs_app, runner_runs_prologue.
Qed.

End Main.
(** * The sweep loop *)

Lemma Forall2_length_eq {A B : Type} (R : A -> B -> Prop) (xs : list A) (ys : list B) :
  Forall2 R xs ys -> length ys = length xs.
Proof. induction 1; simpl; congruence. Qed.

(** C3. The loop variable runs over [range(start_count, total_count)] in
    order, and each step asks the allocator for one unit more than the loop
    variable, computes the mask anew and runs the Runner once on its
    configuration before the next step: with [--cu_count total] given, the
    allocations returning and the Runner starting, the script ends normally
    after exactly [total - start_count] Runner runs, the one of loop value
    [a] being on the configuration of the mask allocated for [a + 1] units.
    For [start_count = 2] and [total_count = 5] these are three runs, for
    3, 4 and 5 units. *)
Theorem sweep_steps_in_order (hw : pysmctrl_module) (runner : json -> proc_result)
    (fuel : nat) (args : arguments) (total : Z) :
  arg_cu_count args = Some total -> total <> 0 ->
  arg_stripe args && negb (truthy hw) = false ->
  allocatable hw fuel args total ->
  (forall c, runner c <> LaunchFailed) ->
  exists evs,
    run_main hw runner fuel args = (evs, Ret tt) /\
    length (runner_runs evs) = Z.to_nat (total - arg_start_count args) /\
    Forall2 (fun a run =>
               exists m,
                 get_cu_mask hw fuel (a + 1) total (arg_stripe args) (arg_device args)
                 = Ret m /\
                 run = (generate_config m (arg_stripe args),
                        exit_status (runner (generate_config m (arg_stripe args)))))
            (range (arg_start_count args) total) (runner_runs evs).
Proof.
  intros Hcount Hne Hstripe Halloc Hrun.
  destruct (run_main_sweep hw runner fuel args total Hcount Hne Hstripe Halloc Hrun)
    as (evs & Hmain & Hruns).
  exists evs. split; [done|]. split; [|done].
  by rewrite (Forall2_length_eq _ _ _ Hruns), range_length.
Qed.

Lemma sweep_steps_in_order_witness :
  let hw := {| get_gpc_info := fun _ => []; get_tpc_info := fun _ => 8; truthy := true |} in
  let runner := fun _ : json => Exited 0 in
  exists evs,
    run_main hw runner 0
      {| arg_cu_count := Some 5; arg_start_count := 2; arg_stripe := false;
         arg_device := 0 |} = (evs, Ret tt) /\
    length (runner_runs evs) = 3%nat /\
    Forall2 (fun a run =>
               exists m,
                 get_cu_mask hw 0 (a + 1) 5 false 0 = Ret m /\
                 run = (generate_config m false,
                        exit_status (runner (generate_config m false))))
            [2; 3; 4] (runner_runs evs).
Proof.
  cbv zeta.
  apply (sweep_steps_in_order
           {| get_gpc_info := fun _ => []; get_tpc_info := fun _ => 8; truthy := true |}
           (fun _ => Exited 0) 0
           {| arg_cu_count := Some 5; arg_start_count := 2; arg_stripe := false;
              arg_device := 0 |} 5).
  - reflexivity.
  - lia.
  - reflexivity.
  - left. reflexivity.
  - intros c. discriminate.
Defined.

(** The sweep of the specification's example, run: three Runner runs, on the
    masks with 3, 4 and 5 units enabled. *)
Example sweep_2_5 :
  runner_runs
    (fst (run_main
            {| get_gpc_info := fun _ => []; get_tpc_info := fun _ => 8; truthy := true |}
            (fun _ => Exited 0) 0
            {| arg_cu_count := Some 5; arg_start_count := 2; arg_stripe := false;
               arg_device := 0 |}))
  = [ (generate_config (Z.lnot 7) false, 0);
      (generate_config (Z.lnot 15) false, 0);
      (generate_config (Z.lnot 31) false, 0) ].
Proof. vm_compute. reflexivity. Qed.

(** C8, on the code.  The two range checks of the script print their message
    and go on.  On a device with 8 TPCs, [--cu_count 9] prints that the count
    must not exceed the number of TPCs and then runs all 9 steps;
    [--cu_count -2 --start_count -5] prints that the count must be positive
    and then runs 3 steps; [--cu_count 0] is taken as no count at all, and
    the sweep of the 8 detected units runs.  Each run ends normally. *)
Theorem range_checks_do_not_stop_sweep :
  let hw := {| get_gpc_info := fun _ => [0x0f; 0xf0]; get_tpc_info := fun _ => 8;
               truthy := true |} in
  let runner := fun _ : json => Exited 0 in
  let run count start :=
    run_main hw runner 0
      {| arg_cu_count := Some count; arg_start_count := start; arg_stripe := false;
         arg_device := 0 |} in
  (head (fst (run 9 0))
     = Some (Stdout "The CU count must not exceed the number of available TPCs.") /\
   length (runner_runs (fst (run 9 0))) = 9%nat /\
   snd (run 9 0) = Ret tt) /\
  (head (fst (run (-2) (-5))) = Some (Stdout "The CU count must be positive.") /\
   length (runner_runs (fst (run (-2) (-5)))) = 3%nat /\
   snd (run (-2) (-5)) = Ret tt) /\
  (head (fst (run 0 0)) = Some (Stdout "Auto-detected a cu_count of 8") /\
   length (runner_runs (fst (run 0 0))) = 8%nat /\
   snd (run 0 0) = Ret tt).
Proof. vm_compute. repeat split. Qed.

(** C9, as stated, fails: a Runner that exits with status 1 at the first
    step does not stop the sweep; the second step runs, and the script ends
    normally. *)
Lemma runner_failure_counterexample :
  run_main {| get_gpc_info := fun _ => []; get_tpc_info := fun _ => 8; truthy := true |}
    (fun _ => Exited 1) 0
    {| arg_cu_count := Some 2; arg_start_count := 0; arg_stripe := false;
       arg_device := 0 |}
  = ( step_events false 0 (Z.lnot 1) 1 ++ step_events false 1 (Z.lnot 3) 1,
      Ret tt ).
Proof. vm_compute. reflexivity. Qed.

Lemma Forall2_Forall_right {A B : Type} (R : A -> B -> Prop) (P : B -> Prop)
    (xs : list A) (ys : list B) :
  (forall a b, R a b -> P b) -> Forall2 R xs ys -> Forall P ys.
Proof. intros H. induction 1; constructor; eauto. Qed.

Lemma configs_of_runs {A : Type} (R1 R2 : A -> json * Z -> Prop) (cfg : A -> json -> Prop)
    (xs : list A) (l1 l2 : list (json * Z)) :
  (forall a run, R1 a run -> cfg a (fst run)) ->
  (forall a run, R2 a run -> cfg a (fst run)) ->
  (forall a c1 c2, cfg a c1 -> cfg a c2 -> c1 = c2) ->
  Forall2 R1 xs l1 -> Forall2 R2 xs l2 -> map fst l1 = map fst l2.
Proof.
  intros H1 H2 Hfun Hl1. revert l2.
  induction Hl1 as [|a r1 xs l1 Hr1 Hl1 IH]; intros l2 Hl2.
  - by apply Forall2_nil_inv_l in Hl2 as ->.
  - apply Forall2_cons_inv_l in Hl2 as (r2 & l2' & Hr2 & Hl2' & ->).
    simpl. f_equal; [|by apply IH].
    apply (Hfun a); [by apply H1 | by apply H2].
Qed.

(** C9 (amended).  A non-zero exit status of the Runner does not make the
    step a failure and does not stop the sweep: the exit status is never
    read.  With [--cu_count total] given, the allocations returning and a
    Runner that starts, the sweep goes through all its
    [total - start_count] steps and ends normally whatever status the
    Runner exits with for each configuration, non-zero ones included, and
    the configurations that are run are the same as when every status is
    0. *)
Theorem runner_status_not_examined (hw : pysmctrl_module) (status : json -> Z)
    (fuel : nat) (args : arguments) (total : Z) :
  arg_cu_count args = Some total -> total <> 0 ->
  arg_stripe args && negb (truthy hw) = false ->
  allocatable hw fuel args total ->
  exists evs,
    run_main hw (fun c => Exited (status c)) fuel args = (evs, Ret tt) /\
    length (runner_runs evs) = Z.to_nat (total - arg_start_count args) /\
    Forall (fun run => snd run = status (fst run)) (runner_runs evs) /\
    map fst (runner_runs evs)
    = map fst (runner_runs (fst (run_main hw (fun _ => Exited 0) fuel args))).
Proof.
  intros Hcount Hne Hstripe Halloc.
  destruct (run_main_sweep hw (fun c => Exited (status c)) fuel args total
              Hcount Hne Hstripe Halloc ltac:(done)) as (evs & Hmain & Hruns).
  destruct (run_main_sweep hw (fun _ => Exited 0) fuel args total
              Hcount Hne Hstripe Halloc ltac:(done)) as (evs0 & Hmain0 & Hruns0).
  exists evs. split; [done|].
  split; [by rewrite (Forall2_length_eq _ _ _ Hruns), range_length|].
  split.
  - refine (Forall2_Forall_right _ _ _ _ _ Hruns). by intros a run (m & _ & ->).
  - rewrite Hmain0. cbn [fst].
    apply (configs_of_runs _ _
             (fun a c => exists m,
                get_cu_mask hw fuel (a + 1) total (arg_stripe args) (arg_device args) = Ret m /\
                c = generate_config m (arg_stripe args))
             _ _ _) with (4 := Hruns) (5 := Hruns0).
    + intros a run (m & Hm & ->). eauto.
    + intros a run (m & Hm & ->). eauto.
    + intros a c1 c2 (m1 & Hm1 & ->) (m2 & Hm2 & ->). congruence.
Qed.

Lemma runner_status_not_examined_witness :
  let hw := {| get_gpc_info := fun _ => []; get_tpc_info := fun _ => 8; truthy := true |} in
  let args := {| arg_cu_count := Some 3; arg_start_count := 0; arg_stripe := false;
                 arg_device := 0 |} in
  exists evs,
    run_main hw (fun c => Exited 1) 0 args = (evs, Ret tt) /\
    length (runner_runs evs) = 3%nat /\
    Forall (fun run => snd run = 1) (runner_runs evs) /\
    map fst (runner_runs evs)
    = map fst (runner_runs (fst (run_main hw (fun _ => Exited 0) 0 args))).
Proof.
  cbv zeta.
  apply (runner_status_not_examined
           {| get_gpc_info := fun _ => []; get_tpc_info := fun _ => 8; truthy := true |}
           (fun _ => 1) 0
           {| arg_cu_count := Some 3; arg_start_count := 0; arg_stripe := false;
              arg_device := 0 |} 3).
  - reflexivity.
  - lia.
  - reflexivity.
  - left. reflexivity.
Defined.

(** * [run_process] and the global [cu_mask] *)

(** C10. [run_process] builds the configuration from the module-level
    [cu_mask], not from its parameter [int_cu_mask], which only goes into the
    line it prints.  Without a global [cu_mask] the call raises a [NameError]
    and produces nothing.  With the global holding [g], the payload is the
    configuration of [g]; the mask in it is the encoding of the parameter
    exactly when [g] and the parameter have the same 64-bit value.  In a
    completed step of the sweep the global has just been assigned the mask
    that is passed, so there the two agree. *)
Theorem run_process_reads_global (runner : json -> proc_result)
    (int_cu_mask : Z) (striped : bool) (w : world) :
  run_process runner int_cu_mask striped w =
    match cu_mask w with
    | None => (w, Raise (NameError "cu_mask"))
    | Some g =>
        let started := Stdout ("Starting test with CU mask " ++
                               cu_mask_to_hex_string int_cu_mask)%string in
        match runner (generate_config g striped) with
        | LaunchFailed =>
            ({| cu_count := cu_count w; cu_mask := cu_mask w;
                events := events w ++ [started] |}, Raise OSError)
        | Exited status =>
            ({| cu_count := cu_count w; cu_mask := cu_mask w;
                events := events w ++
                          [started; RunnerRun (generate_config g striped) status] |},
             Ret tt)
        end
    end /\
  (forall g,
     member "benchmarks" (generate_config g striped)
       = Some (JList [plugin_config g striped]) /\
     member "sm_mask" (plugin_config g striped) = Some (JStr (cu_mask_to_hex_string g)) /\
     (cu_mask_to_hex_string g = cu_mask_to_hex_string int_cu_mask <->
      g mod 2 ^ 64 = int_cu_mask mod 2 ^ 64)) /\
  (forall hw fuel args total a m status,
     get_cu_mask hw fuel (a + 1) total (arg_stripe args) (arg_device args) = Ret m ->
     runner (generate_config m (arg_stripe args)) = Exited status ->
     sweep_step hw runner fuel args total a w =
     ({| cu_count := cu_count w; cu_mask := Some m;
         events := events w ++ step_events (arg_stripe args) a m status |}, Ret tt)).
Proof.
  split; [apply run_process_spec|]. split.
  - intros g. split; [reflexivity|]. split; [reflexivity|].
    pose proof (FmtFacts.hex_mask_spec g) as (_ & _ & Hg).
    pose proof (FmtFacts.hex_mask_spec int_cu_mask) as (_ & _ & Hp).
    split.
    + intros E. rewrite E in Hg. congruence.
    + intros E. unfold cu_mask_to_hex_string. by rewrite !FmtFacts.land_mask64, E.
  - intros hw fuel args total a m status Hm Hr. by apply sweep_step_spec.
Qed.

(** A call of [run_process] with a parameter that is not the global: the
    Runner gets the configuration of the global. *)
Example run_process_other_mask :
  run_process (fun _ => Exited 0) (Z.lnot 1) false
    {| cu_count := Some 4; cu_mask := Some (Z.lnot 7); events := [] |}
  = ({| cu_count := Some 4; cu_mask := Some (Z.lnot 7);
        events := [ Stdout "Starting test with CU mask fffffffffffffffe";
                    RunnerRun (generate_config (Z.lnot 7) false) 0 ] |}, Ret tt).
Proof. vm_compute. reflexivity. Qed.
(** * The binary string of a mask *)

Module BinFacts.
Import Fmt BinFmt.
Local Open Scope string_scope.
Local Open Scope Z_scope.

Lemma pos_bin_length p : forall acc,
  String.length (pos_bin p acc) = (Pos.size_nat p + String.length acc)%nat.
Proof.
  induction p as [p IH|p IH|]; intros acc; simpl; try rewrite IH; simpl; lia.
Qed.

Lemma size_nat_bound p : forall k : nat,
  Z.pos p < 2 ^ Z.of_nat k <-> (Pos.size_nat p <= k)%nat.
Proof.
  induction p as [p IH|p IH|]; intros [|k]; cbn [Pos.size_nat].
  - change (2 ^ Z.of_nat 0) with 1. lia.
  - rewrite Nat2Z.inj_succ, Z.pow_succ_r by lia. specialize (IH k). lia.
  - change (2 ^ Z.of_nat 0) with 1. lia.
  - rewrite Nat2Z.inj_succ, Z.pow_succ_r by lia. specialize (IH k). lia.
  - change (2 ^ Z.of_nat 0) with 1. lia.
  - rewrite Nat2Z.inj_succ, Z.pow_succ_r by lia.
    pose proof (Z.pow_pos_nonneg 2 (Z.of_nat k)). lia.
Qed.

Lemma pos_bin_decode p : forall acc a,
  decode_bin_from a (pos_bin p acc)
  = decode_bin_from (a * 2 ^ Z.of_nat (Pos.size_nat p) + Z.pos p) acc.
Proof.
  induction p as [p IH|p IH|]; intros acc a; cbn [pos_bin Pos.size_nat].
  - rewrite IH. cbn [decode_bin_from]. change (bit_value "1") with (Some 1). cbv iota.
    apply (f_equal (fun x => decode_bin_from x acc)).
    rewrite Nat2Z.inj_succ, Z.pow_succ_r by lia. lia.
  - rewrite IH. cbn [decode_bin_from]. change (bit_value "0") with (Some 0). cbv iota.
    apply (f_equal (fun x => decode_bin_from x acc)).
    rewrite Nat2Z.inj_succ, Z.pow_succ_r by lia. lia.
  - cbn [decode_bin_from]. change (bit_value "1") with (Some 1). cbv iota.
    apply (f_equal (fun x => decode_bin_from x acc)).
    change (2 ^ Z.of_nat 1) with 2. lia.
Qed.

Lemma pos_bin_bits p : forall acc,
  all_chars is_bit (pos_bin p acc) = all_chars is_bit acc.
Proof. induction p as [p IH|p IH|]; intros acc; simpl; try rewrite IH; reflexivity. Qed.

Lemma zeros_decode k : forall a,
  decode_bin_from a (zeros k) = Some (a * 2 ^ Z.of_nat k).
Proof.
  induction k as [|k IH]; intros a; cbn [zeros decode_bin_from].
  - f_equal. simpl. lia.
  - change (bit_value "0") with (Some 0). cbv iota. rewrite IH. f_equal.
    rewrite Nat2Z.inj_succ, Z.pow_succ_r by lia. lia.
Qed.

Lemma decode_bin_app a s1 s2 :
  decode_bin_from a (s1 ++ s2) =
  match decode_bin_from a s1 with
  | Some b => decode_bin_from b s2
  | None => None
  end.
Proof.
  revert a. induction s1 as [|c s1 IH]; intros a; simpl; [reflexivity|].
  destruct (bit_value c); [apply IH | reflexivity].
Qed.

Lemma zeros_bits k : all_chars is_bit (zeros k) = true.
Proof. induction k as [|k IH]; simpl; [reflexivity | exact IH]. Qed.

Lemma zeros_count k : count (zeros k) "1" = 0.
Proof. induction k as [|k IH]; simpl; [reflexivity | exact IH]. Qed.

(** The digits of a non-negative number: how many, what they are, what they
    decode to. *)
Lemma digits_spec n :
  0 <= n ->
  (1 <= String.length (digits n))%nat /\
  (forall k : nat, (1 <= k)%nat -> n < 2 ^ Z.of_nat k <-> (String.length (digits n) <= k)%nat) /\
  all_chars is_bit (digits n) = true /\
  count (digits n) "1" = popcount n /\
  forall a, decode_bin_from a (digits n)
            = Some (a * 2 ^ Z.of_nat (String.length (digits n)) + n).
Proof.
  destruct n as [|p|p]; intros Hn; [| |lia].
  - split; [simpl; lia|]. split; [|split; [reflexivity|split; [reflexivity|]]].
    + intros k Hk. simpl String.length. split; intros _; [lia|].
      apply Z.pow_pos_nonneg; lia.
    + intros a. simpl. f_equal; lia.
  - unfold digits. rewrite pos_bin_length. simpl String.length. rewrite Nat.add_0_r.
    split; [destruct p; simpl; lia|].
    split; [intros k _; apply size_nat_bound|].
    split; [by rewrite pos_bin_bits|].
    split; [rewrite count_pos_bin; simpl; lia|].
    intros a. by rewrite pos_bin_decode.
Qed.

End BinFacts.

(** X1. For a mask that is a 64-bit value, the binary string is exactly 64
    characters, all ['0'] or ['1'], with as many ['1'] as the mask has set
    bits, and it decodes in base 2 to the mask. *)
Theorem binary_string_roundtrip (m : Z) :
  0 <= m < 2 ^ 64 ->
  String.length (cu_mask_to_binary_string m) = 64%nat /\
  Fmt.all_chars BinFmt.is_bit (cu_mask_to_binary_string m) = true /\
  Fmt.count (cu_mask_to_binary_string m) "1" = popcount m /\
  BinFmt.decode_bin (cu_mask_to_binary_string m) = Some m.
Proof.
  intros [H0 H64]. unfold cu_mask_to_binary_string, BinFmt.format_064b.
  destruct (Z.ltb_spec m 0) as [?|_]; [lia|]. cbv zeta.
  destruct (BinFacts.digits_spec m H0) as (Hlen1 & Hbound & Hbits & Hcount & Hdec).
  assert (String.length (BinFmt.digits m) <= 64)%nat as Hlen
    by (apply (Hbound 64%nat); [lia | exact H64]).
  assert (String.length (Fmt.zeros (64 - String.length (BinFmt.digits m))
                         ++ BinFmt.digits m)%string = 64%nat) as Hl.
  { rewrite FmtFacts.length_app, FmtFacts.zeros_length. lia. }
  split; [exact Hl|]. split; [|split].
  - by rewrite FmtFacts.all_chars_app, BinFacts.zeros_bits, Hbits.
  - rewrite count_app, BinFacts.zeros_count, Hcount. lia.
  - destruct (Fmt.zeros _ ++ BinFmt.digits m)%string eqn:E; [simpl in Hl; lia|].
    unfold BinFmt.decode_bin. rewrite <- E.
    rewrite BinFacts.decode_bin_app, BinFacts.zeros_decode, Hdec. f_equal; lia.
Qed.

Lemma binary_string_roundtrip_witness :
  String.length (cu_mask_to_binary_string 11) = 64%nat /\
  Fmt.all_chars BinFmt.is_bit (cu_mask_to_binary_string 11) = true /\
  Fmt.count (cu_mask_to_binary_string 11) "1" = popcount 11 /\
  BinFmt.decode_bin (cu_mask_to_binary_string 11) = Some 11.
Proof. apply binary_string_roundtrip. lia. Defined.

(** X2. The binary string of a mask the allocator returns is not the 64-bit
    pattern that the hexadecimal string shows: the mask is negative, so the
    string is a minus sign followed by the digits of its magnitude (the
    selected set plus one), 63 of them when the magnitude is below [2^63]. *)
Theorem binary_string_of_allocated_mask (hw : pysmctrl_module) (fuel : nat)
    (n total : Z) (striped : bool) (dev : Z) (mask : Z) :
  get_cu_mask hw fuel n total striped dev = Ret mask ->
  exists rest,
    cu_mask_to_binary_string mask = String "-" rest /\
    Fmt.all_chars BinFmt.is_bit rest = true /\
    BinFmt.decode_bin rest = Some (- mask) /\
    (- mask < 2 ^ 63 -> String.length rest = 63%nat).
Proof.
  intros Hmask. destruct (get_cu_mask_complement _ _ _ _ _ _ _ Hmask) as (sel & Hsel & ->).
  assert (Z.lnot sel < 0) as Hneg by (unfold Z.lnot; lia).
  unfold cu_mask_to_binary_string, BinFmt.format_064b.
  destruct (Z.ltb_spec (Z.lnot sel) 0) as [_|?]; [|lia]. cbv zeta.
  set (m := - Z.lnot sel). assert (0 <= m) as Hm by (unfold m; lia).
  destruct (BinFacts.digits_spec m Hm) as (Hlen1 & Hbound & Hbits & Hcount & Hdec).
  eexists. split; [reflexivity|]. split; [|split].
  - by rewrite FmtFacts.all_chars_app, BinFacts.zeros_bits, Hbits.
  - destruct (Fmt.zeros _ ++ BinFmt.digits m)%string eqn:E.
    + apply (f_equal String.length) in E.
      rewrite FmtFacts.length_app in E. simpl in E. lia.
    + unfold BinFmt.decode_bin. rewrite <- E.
      rewrite BinFacts.decode_bin_app, BinFacts.zeros_decode, Hdec. f_equal; lia.
  - intros H63. rewrite FmtFacts.length_app, FmtFacts.zeros_length.
    assert (String.length (BinFmt.digits m) <= 63)%nat
      by (apply (Hbound 63%nat); [lia | exact H63]).
    lia.
Qed.

Lemma binary_string_of_allocated_mask_witness :
  exists rest,
    cu_mask_to_binary_string (-8) = String "-" rest /\
    Fmt.all_chars BinFmt.is_bit rest = true /\
    BinFmt.decode_bin rest = Some (- -8) /\
    (- -8 < 2 ^ 63 -> String.length rest = 63%nat).
Proof.
  apply (binary_string_of_allocated_mask
           {| get_gpc_info := fun _ => []; get_tpc_info := fun _ => 8; truthy := true |}
           0 3 8 false 0 (-8)).
  reflexivity.
Defined.
(** * More on the allocator *)

Lemma striped_loop_outcome fuel iters : forall st p,
  (0 < length (info st))%nat ->
  next_gpc st = Z.of_nat (p mod length (info st)) ->
  (exists st', striped_loop fuel iters st = Ret st') \/
  striped_loop fuel iters st = OutOfFuel.
Proof.
  induction iters as [|iters IH]; intros st p HL Hc; [left; by exists st|].
  cbn [striped_loop]. pose proof (striped_step_spec fuel st p HL Hc) as Hs.
  destruct (striped_step fuel st) as [st1|e|code|]; try contradiction; [|by right].
  destruct Hs as (d & m & _ & _ & _ & _ & ->). cbn [bind].
  apply (IH _ (S (p + d))); cbn [info next_gpc]; rewrite length_insert; done.
Qed.

(** X3. On a topology with at least one group, whatever integers the groups
    are and whatever is asked, the allocator raises no exception: the index
    [next_gpc - 1], which is [-1] when the cursor has wrapped, always
    denotes a group.  The call returns a mask or is still scanning empty
    groups when the fuel runs out. *)
Theorem allocator_raises_nothing (hw : pysmctrl_module) (fuel : nat)
    (n total : Z) (striped : bool) (dev : Z) :
  get_gpc_info hw dev <> [] ->
  (exists mask, get_cu_mask hw fuel n total striped dev = Ret mask) \/
  get_cu_mask hw fuel n total striped dev = OutOfFuel.
Proof.
  intros Hne. destruct striped; [|left; rewrite get_cu_mask_contiguous; eauto].
  unfold get_cu_mask. simpl negb. cbv iota.
  destruct (striped_loop_outcome fuel (Z.to_nat n)
              {| info := get_gpc_info hw dev; next_gpc := 0; res := 0 |} 0%nat)
    as [[st' ->] | ->].
  - by apply nonempty_length.
  - simpl. by rewrite Nat.Div0.mod_0_l.
  - left. cbn [bind]. eauto.
  - by right.
Qed.

Lemma allocator_raises_nothing_witness :
  (exists mask,
     get_cu_mask {| get_gpc_info := fun _ => [-4; 0; 5]; get_tpc_info := fun _ => 0;
                    truthy := true |} 3 4 0 true 0 = Ret mask) \/
  get_cu_mask {| get_gpc_info := fun _ => [-4; 0; 5]; get_tpc_info := fun _ => 0;
                 truthy := true |} 3 4 0 true 0 = OutOfFuel.
Proof.
  apply (allocator_raises_nothing
           {| get_gpc_info := fun _ => [-4; 0; 5]; get_tpc_info := fun _ => 0;
              truthy := true |} 3 4 0 true 0).
  discriminate.
Defined.

(** X4. On a topology without any group, a striped request for one unit or
    more raises [IndexError] at the first [info[next_gpc]]. *)
Theorem empty_topology_index_error (hw : pysmctrl_module) (fuel : nat) (n total dev : Z) :
  get_gpc_info hw dev = [] -> 1 <= n -> (1 <= fuel)%nat ->
  get_cu_mask hw fuel n total true dev = Raise IndexError.
Proof.
  intros Hempty Hn Hfuel. unfold get_cu_mask. simpl negb. cbv iota. rewrite Hempty.
  destruct (Z.to_nat n) as [|k] eqn:E; [lia|].
  destruct fuel as [|fuel]; [lia|]. reflexivity.
Qed.

Lemma empty_topology_index_error_witness :
  get_cu_mask {| get_gpc_info := fun _ => []; get_tpc_info := fun _ => 0; truthy := true |}
    1 1 1 true 0 = Raise IndexError.
Proof.
  apply (empty_topology_index_error
           {| get_gpc_info := fun _ => []; get_tpc_info := fun _ => 0; truthy := true |}
           1 1 1 0); [reflexivity | lia | lia].
Defined.

(** X5. A request for no unit, or for a negative number of units, returns
    the mask [-1] in either mode, whatever the topology (an empty one too)
    and whatever the fuel; its configuration has the mask
    [ffffffffffffffff] and the label [0]. *)
Theorem nothing_requested (hw : pysmctrl_module) (fuel : nat)
    (n total : Z) (striped : bool) (dev : Z) :
  n <= 0 ->
  get_cu_mask hw fuel n total striped dev = Ret (-1) /\
  member "sm_mask" (plugin_config (-1) striped) = Some (JStr "ffffffffffffffff") /\
  member "label" (plugin_config (-1) striped) = Some (JStr "0").
Proof.
  intros Hn. split; [|split; reflexivity].
  unfold get_cu_mask. replace (Z.to_nat n) with 0%nat by lia.
  by destruct striped.
Qed.

Lemma nothing_requested_witness :
  get_cu_mask {| get_gpc_info := fun _ => []; get_tpc_info := fun _ => 0; truthy := true |}
    0 (-3) 4 true 0 = Ret (-1) /\
  member "sm_mask" (plugin_config (-1) true) = Some (JStr "ffffffffffffffff") /\
  member "label" (plugin_config (-1) true) = Some (JStr "0").
Proof.
  apply (nothing_requested
           {| get_gpc_info := fun _ => []; get_tpc_info := fun _ => 0; truthy := true |}
           0 (-3) 4 true 0).
  lia.
Defined.

(** ** Successive requests *)

Lemma bind_assoc {A B C : Type} (m : outcome A) (f : A -> outcome B) (g : B -> outcome C) :
  bind (bind m f) g = bind m (fun a => bind (f a) g).
Proof. by destruct m. Qed.

(** One iteration more is one step after the loop. *)
Lemma striped_loop_snoc fuel iters : forall st,
  striped_loop fuel (S iters) st = bind (striped_loop fuel iters st) (striped_step fuel).
Proof.
  induction iters as [|iters IH]; intros st.
  - cbn [striped_loop bind]. by destruct (striped_step fuel st).
  - change (striped_loop fuel (S (S iters)) st)
      with (bind (striped_step fuel st) (striped_loop fuel (S iters))).
    cbn [striped_loop]. rewrite bind_assoc.
    destruct (striped_step fuel st) as [st1| | |]; try reflexivity.
    cbn [bind]. apply IH.
Qed.

(** X6. The striped masks of successive requests nest: on a well-formed
    topology of disjoint groups, asking for one unit more selects the same
    units and one unit that was not selected. *)
Theorem striped_masks_nest (hw : pysmctrl_module) (fuel : nat) (n total1 total2 dev : Z) :
  get_gpc_info hw dev <> [] ->
  forallb is_mask64 (get_gpc_info hw dev) = true ->
  disjointb (get_gpc_info hw dev) = true ->
  0 <= n -> n + 1 <= units (get_gpc_info hw dev) ->
  (length (get_gpc_info hw dev) <= fuel)%nat ->
  exists sel k,
    0 <= k /\
    get_cu_mask hw fuel n total1 true dev = Ret (Z.lnot sel) /\
    Z.testbit sel k = false /\
    get_cu_mask hw fuel (n + 1) total2 true dev = Ret (Z.lnot (Z.lor sel (2 ^ k))).
Proof.
  intros Hne Hwf Hdisjb Hn Hunits Hfuel. set (topo := get_gpc_info hw dev) in *.
  pose proof (nonempty_length topo Hne) as HL.
  pose proof (forallb_mask64_nonneg topo Hwf) as Hnn.
  pose proof (disjointb_disjoint topo Hdisjb) as Hdisj.
  destruct (striped_loop_inv topo HL fuel (Z.to_nat n)
              {| info := topo; next_gpc := 0; res := 0 |} 0%nat 0)
    as (st & p & Hloop & Hinv & Hc); try done.
  { by apply alloc_inv_init. }
  { simpl. by rewrite Nat.Div0.mod_0_l. }
  { lia. }
  replace (0 + Z.of_nat (Z.to_nat n)) with n in Hinv by lia.
  destruct (striped_step_total topo HL fuel st p n Hinv Hc ltac:(lia) Hfuel) as [st' Hstep].
  destruct (striped_step_inv topo HL fuel st st' p n Hinv Hc Hstep) as (p' & Hinv' & _).
  pose proof (striped_step_spec fuel st p) as Hs.
  rewrite (inv_length _ _ _ _ _ Hinv), Hstep in Hs.
  destruct (Hs HL Hc) as (d & m & _ & _ & Hm & Hnz & Est').
  assert (0 < m) as Hpos.
  { destruct (lookup_lt_is_Some_2 topo ((p + d) mod length topo)) as [o Ho];
      [apply Nat.mod_upper_bound; lia|].
    destruct (inv_groups _ _ _ _ _ Hinv _ o Ho) as (f & Hf & [G1 _ _ _]).
    assert (f = m) as -> by congruence.
    destruct (Z.eq_dec m 0) as [->|]; [by contradict Hnz | lia]. }
  destruct (lowbit_spec m Hpos) as (k & Hk & Hlow & _).
  assert (res st' = Z.lor (res st) (2 ^ k)) as Hres by (rewrite Est', <- Hlow; reflexivity).
  exists (res st), k. split; [done|].
  assert (forall total, get_cu_mask hw fuel n total true dev = Ret (Z.lnot (res st))) as G1.
  { intros total. unfold get_cu_mask. simpl negb. cbv iota. fold topo. by rewrite Hloop. }
  assert (forall total, get_cu_mask hw fuel (n + 1) total true dev = Ret (Z.lnot (res st'))) as G2.
  { intros total. unfold get_cu_mask. simpl negb. cbv iota. fold topo.
    replace (Z.to_nat (n + 1)) with (S (Z.to_nat n)) by lia.
    rewrite striped_loop_snoc, Hloop. cbn [bind]. by rewrite Hstep. }
  split; [apply G1|]. split; [|by rewrite G2, Hres].
  apply not_true_is_false. intros Hbit.
  pose proof (inv_popcount _ _ _ _ _ Hinv Hdisj) as P1.
  pose proof (inv_popcount _ _ _ _ _ Hinv' Hdisj) as P2.
  assert (Z.lor (res st) (2 ^ k) = res st) as Esame.
  { apply Z.bits_inj'. intros i Hi. rewrite Z.lor_spec, Z.pow2_bits_eqb by lia.
    destruct (Z.eqb_spec k i) as [<-|_]; [by rewrite Hbit | apply orb_false_r]. }
  rewrite Hres, Esame in P2. lia.
Qed.

Lemma striped_masks_nest_witness :
  exists sel k,
    0 <= k /\
    get_cu_mask {| get_gpc_info := fun _ => [0x0f; 0xf0]; get_tpc_info := fun _ => 8;
                   truthy := true |} 2 3 8 true 0 = Ret (Z.lnot sel) /\
    Z.testbit sel k = false /\
    get_cu_mask {| get_gpc_info := fun _ => [0x0f; 0xf0]; get_tpc_info := fun _ => 8;
                   truthy := true |} 2 (3 + 1) 8 true 0 = Ret (Z.lnot (Z.lor sel (2 ^ k))).
Proof.
  apply (striped_masks_nest
           {| get_gpc_info := fun _ => [0x0f; 0xf0]; get_tpc_info := fun _ => 8;
              truthy := true |} 2 3 8 8 0).
  - discriminate.
  - reflexivity.
  - reflexivity.
  - lia.
  - simpl. lia.
  - simpl. lia.
Defined.
(** * The two modes side by side *)

Lemma lowbit_shift b m : 0 <= b -> lowbit (2 ^ b * m) = 2 ^ b * lowbit m.
Proof.
  intros Hb. revert m. pattern b. apply natlike_ind; [| |exact Hb].
  - intros m. by rewrite Z.pow_0_r, !Z.mul_1_l.
  - intros x Hx IH m. rewrite Z.pow_succ_r by lia.
    replace (2 * 2 ^ x * m) with (2 ^ x * (2 * m)) by lia.
    rewrite IH, lowbit_even. lia.
Qed.

(** The rightmost bit of the units [b] to [t - 1]. *)
Lemma lowbit_upper_ones b t : 0 <= b < t -> lowbit (2 ^ t - 2 ^ b) = 2 ^ b.
Proof.
  intros Hbt.
  replace (2 ^ t - 2 ^ b) with (2 ^ b * (2 * (2 ^ (t - b - 1) - 1) + 1)).
  - rewrite lowbit_shift, lowbit_odd by lia. lia.
  - replace t with (b + (1 + (t - b - 1))) at 2 by lia.
    rewrite !Z.pow_add_r by lia. change (2 ^ 1) with 2. lia.
Qed.

Lemma lor_ones_pow2 b : 0 <= b -> Z.lor (Z.ones b) (2 ^ b) = Z.ones (b + 1).
Proof.
  intros Hb. apply Z.bits_inj'. intros i Hi.
  rewrite Z.lor_spec, Z.pow2_bits_eqb, !Z.testbit_ones_nonneg by lia.
  destruct (Z.ltb_spec i b), (Z.eqb_spec b i), (Z.ltb_spec i (b + 1)); simpl; lia.
Qed.

(** The striped loop on one group holding the units 0 to [t - 1]. *)
Lemma striped_loop_one_group fuel t iters : forall b,
  0 <= b -> b + Z.of_nat iters <= t ->
  striped_loop (S fuel) iters {| info := [2 ^ t - 2 ^ b]; next_gpc := 0; res := Z.ones b |}
  = Ret {| info := [2 ^ t - 2 ^ (b + Z.of_nat iters)]; next_gpc := 0;
           res := Z.ones (b + Z.of_nat iters) |}.
Proof.
  induction iters as [|iters IH]; intros b Hb Hle.
  - by rewrite Z.add_0_r.
  - cbn [striped_loop]. unfold striped_step. cbn [scan info next_gpc res].
    change (PyList.getitem [2 ^ t - 2 ^ b] 0) with (Ret (A := Z) (2 ^ t - 2 ^ b)).
    cbn [bind]. rewrite lowbit_upper_ones by lia.
    pose proof (Z.pow_pos_nonneg 2 b).
    destruct (Z.eqb_spec (2 ^ b) 0) as [|_]; [lia|].
    change ((0 + 1) mod PyList.len [2 ^ t - 2 ^ b]) with 0. cbn [bind].
    change (PyList.getitem [2 ^ t - 2 ^ b] (0 - 1)) with (Ret (A := Z) (2 ^ t - 2 ^ b)).
    cbn [bind].
    change (PyList.setitem [2 ^ t - 2 ^ b] (0 - 1) (2 ^ t - 2 ^ b - 2 ^ b))
      with (Ret (A := list Z) [2 ^ t - 2 ^ b - 2 ^ b]).
    cbn [bind]. rewrite lor_ones_pow2 by lia.
    replace (2 ^ t - 2 ^ b - 2 ^ b) with (2 ^ t - 2 ^ (b + 1))
      by (rewrite Z.pow_add_r by lia; change (2 ^ 1) with 2; lia).
    replace (b + Z.of_nat (S iters)) with (b + 1 + Z.of_nat iters) by lia.
    apply IH; lia.
Qed.

(** X7. Where the topology is one group holding the units 0 to [t - 1], the
    striped allocator returns, for every request of up to [t] units, the
    mask the contiguous allocator returns. *)
Theorem one_group_striped_is_contiguous (hw : pysmctrl_module) (fuel : nat)
    (n total dev t : Z) :
  get_gpc_info hw dev = [Z.ones t] -> 0 <= n <= t -> (1 <= fuel)%nat ->
  get_cu_mask hw fuel n total true dev = get_cu_mask hw fuel n total false dev.
Proof.
  intros Htopo Hn Hfuel. rewrite get_cu_mask_contiguous, Z.max_r by lia.
  unfold get_cu_mask. simpl negb. cbv iota. rewrite Htopo.
  destruct fuel as [|fuel]; [lia|].
  pose proof (striped_loop_one_group fuel t (Z.to_nat n) 0 ltac:(lia) ltac:(lia)) as H.
  rewrite Z.ones_equiv. change (Z.ones 0) with 0 in H.
  change (2 ^ 0) with 1 in H. replace (Z.pred (2 ^ t)) with (2 ^ t - 1) by lia.
  rewrite H. cbn [bind res]. do 3 f_equal. lia.
Qed.

Lemma one_group_striped_is_contiguous_witness :
  get_cu_mask {| get_gpc_info := fun _ => [0xff]; get_tpc_info := fun _ => 8;
                 truthy := true |} 1 5 8 true 0
  = get_cu_mask {| get_gpc_info := fun _ => [0xff]; get_tpc_info := fun _ => 8;
                   truthy := true |} 1 5 8 false 0.
Proof.
  apply (one_group_striped_is_contiguous
           {| get_gpc_info := fun _ => [0xff]; get_tpc_info := fun _ => 8;
              truthy := true |} 1 5 8 0 8); [reflexivity | lia | lia].
Defined.

(** X8. The hexadecimal string of the contiguous mask for [n] units has its
    low [n] bits clear and the others set, up to 64 units; from 64 units on
    it is [0000000000000000] whatever [n]. *)
Theorem contiguous_hex_string (hw : pysmctrl_module) (fuel : nat) (n total dev : Z) :
  0 <= n ->
  exists mask,
    get_cu_mask hw fuel n total false dev = Ret mask /\
    Fmt.decode_hex (cu_mask_to_hex_string mask)
    = Some (if n <? 64 then 2 ^ 64 - 2 ^ n else 0) /\
    (64 <= n -> cu_mask_to_hex_string mask = "0000000000000000"%string).
Proof.
  intros Hn. exists (Z.lnot (Z.ones n)).
  rewrite get_cu_mask_contiguous, Z.max_r by lia. split; [done|].
  assert (Z.lnot (Z.ones n) = - 2 ^ n) as E by (rewrite Z.ones_equiv; unfold Z.lnot; lia).
  assert (64 <= n -> (- 2 ^ n) mod 2 ^ 64 = 0) as Hbig.
  { intros H64. replace n with (64 + (n - 64)) by lia.
    rewrite Z.pow_add_r by lia.
    replace (- (2 ^ 64 * 2 ^ (n - 64))) with ((- 2 ^ (n - 64)) * 2 ^ 64) by lia.
    apply Z.mod_mul. lia. }
  split.
  - pose proof (FmtFacts.hex_mask_spec (Z.lnot (Z.ones n))) as (_ & _ & ->).
    f_equal. rewrite E. destruct (Z.ltb_spec n 64) as [Hlt|Hge]; [|by apply Hbig].
    pose proof (Z.pow_pos_nonneg 2 n). pose proof (Z.pow_lt_mono_r 2 n 64).
    symmetry. apply (Z.mod_unique _ _ (-1)); lia.
  - intros H64. unfold cu_mask_to_hex_string.
    by rewrite FmtFacts.land_mask64, E, Hbig.
Qed.

Lemma contiguous_hex_string_witness :
  exists mask,
    get_cu_mask {| get_gpc_info := fun _ => []; get_tpc_info := fun _ => 80;
                   truthy := true |} 0 70 80 false 0 = Ret mask /\
    Fmt.decode_hex (cu_mask_to_hex_string mask)
    = Some (if 70 <? 64 then 2 ^ 64 - 2 ^ 70 else 0) /\
    (64 <= 70 -> cu_mask_to_hex_string mask = "0000000000000000"%string).
Proof.
  apply (contiguous_hex_string
           {| get_gpc_info := fun _ => []; get_tpc_info := fun _ => 80; truthy := true |}
           0 70 80 0).
  lia.
Defined.

(** X9. When the allocation is sound the label of the configuration is the
    requested count: in contiguous mode for every [n >= 0] (beyond 64 too,
    where the mask no longer changes), in striped mode on a well-formed
    topology of disjoint groups with at least [n] units. *)
Theorem label_is_requested_count (hw : pysmctrl_module) (fuel : nat)
    (n total : Z) (striped : bool) (dev : Z) :
  0 <= n ->
  (striped = true ->
   get_gpc_info hw dev <> [] /\
   forallb is_mask64 (get_gpc_info hw dev) = true /\
   disjointb (get_gpc_info hw dev) = true /\
   n <= units (get_gpc_info hw dev) /\
   (length (get_gpc_info hw dev) <= fuel)%nat) ->
  exists mask,
    get_cu_mask hw fuel n total striped dev = Ret mask /\
    member "label" (plugin_config mask striped) = Some (JStr (Fmt.str n)).
Proof.
  intros Hn Hvalid.
  assert (exists sel, get_cu_mask hw fuel n total striped dev = Ret (Z.lnot sel) /\
                      0 <= sel /\ popcount sel = n) as (sel & Hret & Hsel & Hpop).
  { destruct striped.
    - destruct (Hvalid eq_refl) as (Hne & Hwf & Hdisjb & Hunits & Hfuel).
      destruct (get_cu_mask_striped_inv hw fuel n total dev Hne Hwf ltac:(lia) Hfuel)
        as (p & info' & sel & Hret & Hinv).
      exists sel. split; [done|]. split; [apply (inv_res_nonneg _ _ _ _ _ Hinv)|].
      apply (inv_popcount _ _ _ _ _ Hinv). by apply disjointb_disjoint.
    - exists (Z.ones n). rewrite get_cu_mask_contiguous, Z.max_r by lia.
      split; [done|]. split; [|by apply popcount_ones].
      rewrite Z.ones_equiv. pose proof (Z.pow_pos_nonneg 2 n). lia. }
  exists (Z.lnot sel). split; [done|].
  cbn. by rewrite Z.lnot_involutive, count_bin, Hpop.
Qed.

Lemma label_is_requested_count_witness :
  exists mask,
    get_cu_mask {| get_gpc_info := fun _ => []; get_tpc_info := fun _ => 80;
                   truthy := true |} 0 70 80 false 0 = Ret mask /\
    member "label" (plugin_config mask false) = Some (JStr (Fmt.str 70)).
Proof.
  apply (label_is_requested_count
           {| get_gpc_info := fun _ => []; get_tpc_info := fun _ => 80; truthy := true |}
           0 70 80 false 0); [lia | discriminate].
Defined.

(** ** Log names *)

Lemma string_app_inv_tail (a b c : string) :
  String.length a = String.length b -> (a ++ c)%string = (b ++ c)%string -> a = b.
Proof.
  revert b. induction a as [|x a IH]; intros [|y b] Hlen H; simpl in *; try lia.
  - reflexivity.
  - injection H as -> H. f_equal. apply IH; [lia | done].
Qed.

Lemma log_name_of m s :
  member "log_name" (plugin_config m s)
  = Some (JStr ("cu_mask_" ++
                ((if s then "striped_" ++ cu_mask_to_hex_string m
                  else cu_mask_to_hex_string m) ++ ".json"))%string).
Proof. reflexivity. Qed.

(** X10. Two configurations write to the same log file exactly when their
    masks have the same 64-bit value and both are striped or both are not:
    the steps of one sweep whose masks differ in their low 64 bits never
    share a log file. *)
Theorem log_name_injective (m1 m2 : Z) (s1 s2 : bool) :
  member "log_name" (plugin_config m1 s1) = member "log_name" (plugin_config m2 s2) <->
  m1 mod 2 ^ 64 = m2 mod 2 ^ 64 /\ s1 = s2.
Proof.
  pose proof (FmtFacts.hex_mask_spec m1) as (L1 & _ & D1).
  pose proof (FmtFacts.hex_mask_spec m2) as (L2 & _ & D2).
  rewrite !log_name_of. split.
  - intros H. injection H as H.
    pose proof (f_equal String.length H) as Hlen.
    rewrite !FmtFacts.length_app in Hlen.
    destruct s1, s2; cbn [String.length] in Hlen; rewrite ?L1, ?L2 in Hlen; try lia.
    + apply string_app_inv_tail in H; [|cbn [String.length]; congruence].
      injection H as H. rewrite H in D1. split; congruence.
    + apply string_app_inv_tail in H; [|congruence].
      rewrite H in D1. split; congruence.
  - intros [Hm ->]. unfold cu_mask_to_hex_string.
    by rewrite !FmtFacts.land_mask64, Hm.
Qed.
(** * More on the sweep *)

Lemma range_nil a b : b <= a -> range a b = [].
Proof. intros H. unfold range. by replace (Z.to_nat (b - a)) with 0%nat by lia. Qed.

Lemma range_cons a b : a < b -> range a b = a :: range (a + 1) b.
Proof.
  intros H. unfold range.
  replace (Z.to_nat (b - a)) with (S (Z.to_nat (b - (a + 1)))) by lia.
  cbn [seq map]. f_equal; [lia|].
  rewrite <- seq_shift, map_map. apply map_ext. intros i. lia.
Qed.

Lemma range_split a c b : a <= c <= b -> range a b = range a c ++ range c b.
Proof.
  intros [Hac Hcb]. remember (Z.to_nat (c - a)) as k eqn:Hk.
  revert a Hac Hk. induction k as [|k IH]; intros a Hac Hk.
  - assert (a = c) as -> by lia. by rewrite (range_nil c c) by lia.
  - rewrite (range_cons a b), (range_cons a c) by lia. simpl. f_equal.
    apply IH; lia.
Qed.

Section SweepStops.

Variable hw : pysmctrl_module.
Variable runner : json -> proc_result.

(** A step whose allocation returns and whose Runner cannot be started. *)
Lemma sweep_step_launch_failed fuel args total a w m :
  get_cu_mask hw fuel (a + 1) total (arg_stripe args) (arg_device args) = Ret m ->
  runner (generate_config m (arg_stripe args)) = LaunchFailed ->
  exists w', sweep_step hw runner fuel args total a w = (w', Raise OSError) /\
             runner_runs (events w') = runner_runs (events w).
Proof.
  intros Halloc Hrun. unfold sweep_step.
  unfold pbind at 1. unfold print at 1, emit at 1.
  unfold pbind at 1. unfold lift at 1. rewrite Halloc.
  unfold pbind at 1. unfold assign_cu_mask at 1.
  unfold pbind at 1. unfold read_cu_mask at 1. cbn [cu_mask].
  unfold pbind at 1. rewrite run_process_spec. cbn [cu_mask cu_count events].
  rewrite Hrun. eexists. split; [reflexivity|].
  cbn [events]. rewrite !runner_runs_app. simpl. by rewrite !app_nil_r.
Qed.

(** A step whose allocation does not come back. *)
Lemma sweep_step_hangs fuel args total a w :
  get_cu_mask hw fuel (a + 1) total (arg_stripe args) (arg_device args) = OutOfFuel ->
  exists w', sweep_step hw runner fuel args total a w = (w', OutOfFuel) /\
             runner_runs (events w') = runner_runs (events w).
Proof.
  intros Halloc. unfold sweep_step.
  unfold pbind at 1. unfold print at 1, emit at 1.
  unfold pbind at 1. unfold lift at 1. rewrite Halloc.
  eexists. split; [reflexivity|].
  cbn [events]. rewrite runner_runs_app. simpl. by rewrite app_nil_r.
Qed.

(** The steps that complete: the allocation returns and the Runner starts. *)
Lemma sweep_loop_completed fuel args total xs : forall w,
  (forall a, a ∈ xs ->
     exists m status,
       get_cu_mask hw fuel (a + 1) total (arg_stripe args) (arg_device args) = Ret m /\
       runner (generate_config m (arg_stripe args)) = Exited status) ->
  exists w',
    for_each xs (sweep_step hw runner fuel args total) w = (w', Ret tt) /\
    length (runner_runs (events w')) = (length (runner_runs (events w)) + length xs)%nat.
Proof.
  induction xs as [|a xs IH]; intros w Hok.
  - exists w. simpl. split; [done | lia].
  - destruct (Hok a ltac:(left)) as (m & status & Hm & Hr).
    cbn [for_each]. unfold pbind at 1.
    rewrite (sweep_step_spec hw runner fuel args total a w m status Hm Hr).
    destruct (IH {| cu_count := cu_count w; cu_mask := Some m;
                    events := events w ++ step_events (arg_stripe args) a m status |})
      as (w' & Hloop & Hlen).
    { intros a' Ha'. apply Hok. by right. }
    exists w'. split; [done|]. rewrite Hlen. cbn [events].
    rewrite runner_runs_app, length_app. simpl. lia.
Qed.

(** A sweep stops at the first step that does not complete. *)
Lemma sweep_loop_stops fuel args total pre a0 post w (o : outcome unit) :
  (forall a, a ∈ pre ->
     exists m status,
       get_cu_mask hw fuel (a + 1) total (arg_stripe args) (arg_device args) = Ret m /\
       runner (generate_config m (arg_stripe args)) = Exited status) ->
  (forall u, o <> Ret u) ->
  (forall w1, exists w2,
     sweep_step hw runner fuel args total a0 w1 = (w2, o) /\
     runner_runs (events w2) = runner_runs (events w1)) ->
  exists w',
    for_each (pre ++ a0 :: post) (sweep_step hw runner fuel args total) w = (w', o) /\
    length (runner_runs (events w')) = (length (runner_runs (events w)) + length pre)%nat.
Proof.
  revert w. induction pre as [|a pre IH]; intros w Hok Ho Hstop.
  - destruct (Hstop w) as (w2 & Hstep & Hruns). exists w2.
    cbn [app for_each]. unfold pbind. rewrite Hstep.
    split; [|rewrite Hruns; simpl; lia].
    destruct o as [u| | |]; [by destruct (Ho u) | done | done | done].
  - destruct (Hok a ltac:(left)) as (m & status & Hm & Hr).
    cbn [app for_each]. unfold pbind at 1.
    rewrite (sweep_step_spec hw runner fuel args total a w m status Hm Hr).
    destruct (IH {| cu_count := cu_count w; cu_mask := Some m;
                    events := events w ++ step_events (arg_stripe args) a m status |})
      as (w' & Hloop & Hlen); try done.
    { intros a' Ha'. apply Hok. by right. }
    exists w'. split; [done|]. rewrite Hlen. cbn [events].
    rewrite runner_runs_app, length_app. simpl. lia.
Qed.

(** Without [--cu_count] (or with [--cu_count 0]) the count is what
    [pysmctrl] reports. *)
Lemma main_auto fuel args :
  given (arg_cu_count args) = false -> truthy hw = true ->
  main hw runner fuel args fresh =
  for_each (range (arg_start_count args) (get_tpc_info hw (arg_device args)))
    (sweep_step hw runner fuel args (get_tpc_info hw (arg_device args)))
    {| cu_count := Some (get_tpc_info hw (arg_device args)); cu_mask := None;
       events := [Stdout ("Auto-detected a cu_count of " ++
                          Fmt.str (get_tpc_info hw (arg_device args)))%string] |}.
Proof.
  intros Hgiven Htruthy. unfold main. rewrite Hgiven, Htruthy, andb_false_r.
  unfold pbind, assign_cu_count, read_cu_count, when, print, emit, pret, fresh.
  cbn [cu_count cu_mask events app].
  destruct (Z.gtb_spec (get_tpc_info hw (arg_device args))
              (get_tpc_info hw (arg_device args))) as [?|_]; [lia|].
  reflexivity.
Qed.

End SweepStops.

(** X11. A sweep whose start count is not below the given total runs no
    step: nothing is allocated, the Runner is never started, and the script
    ends normally after the messages of its range checks. *)
Theorem empty_sweep (hw : pysmctrl_module) (runner : json -> proc_result)
    (fuel : nat) (args : arguments) (total : Z) :
  arg_cu_count args = Some total -> total <> 0 ->
  arg_stripe args && negb (truthy hw) = false ->
  total <= arg_start_count args ->
  run_main hw runner fuel args = (prologue hw args total, Ret tt) /\
  runner_runs (fst (run_main hw runner fuel args)) = [].
Proof.
  intros Hcount Hne Hstripe Hle.
  assert (run_main hw runner fuel args = (prologue hw args total, Ret tt)) as E.
  { unfold run_main. rewrite (main_given hw runner fuel args total) by done.
    by rewrite range_nil. }
  split; [exact E|]. rewrite E. apply runner_runs_prologue.
Qed.

Lemma empty_sweep_witness :
  let hw := {| get_gpc_info := fun _ => []; get_tpc_info := fun _ => 8; truthy := true |} in
  let args := {| arg_cu_count := Some 8; arg_start_count := 8; arg_stripe := true;
                 arg_device := 0 |} in
  run_main hw (fun _ => LaunchFailed) 0 args = (prologue hw args 8, Ret tt) /\
  runner_runs (fst (run_main hw (fun _ => LaunchFailed) 0 args)) = [].
Proof.
  cbv zeta.
  apply (empty_sweep
           {| get_gpc_info := fun _ => []; get_tpc_info := fun _ => 8; truthy := true |}
           (fun _ => LaunchFailed) 0
           {| arg_cu_count := Some 8; arg_start_count := 8; arg_stripe := true;
              arg_device := 0 |} 8); [reflexivity | lia | reflexivity | simpl; lia].
Defined.

(** X12. Without [--cu_count], or with [--cu_count 0], the sweep is that of
    the number of TPCs the hardware reports: the script prints the detected
    count, never the range messages, and (the allocations returning and the
    Runner starting) runs one step for each value from the start count to
    that number, each for one unit more than the loop variable. *)
Theorem auto_detected_sweep (hw : pysmctrl_module) (runner : json -> proc_result)
    (fuel : nat) (args : arguments) :
  given (arg_cu_count args) = false -> truthy hw = true ->
  allocatable hw fuel args (get_tpc_info hw (arg_device args)) ->
  (forall c, runner c <> LaunchFailed) ->
  exists evs,
    run_main hw runner fuel args
    = (Stdout ("Auto-detected a cu_count of " ++
               Fmt.str (get_tpc_info hw (arg_device args)))%string :: evs, Ret tt) /\
    Forall2 (fun a run =>
               exists m,
                 get_cu_mask hw fuel (a + 1) (get_tpc_info hw (arg_device args))
                   (arg_stripe args) (arg_device args) = Ret m /\
                 run = (generate_config m (arg_stripe args),
                        exit_status (runner (generate_config m (arg_stripe args)))))
            (range (arg_start_count args) (get_tpc_info hw (arg_device args)))
            (runner_runs evs).
Proof.
  intros Hgiven Htruthy Halloc Hrun.
  set (total := get_tpc_info hw (arg_device args)) in *.
  destruct (sweep_loop_spec hw runner fuel args total (range (arg_start_count args) total)
              {| cu_count := Some total; cu_mask := None;
                 events := [Stdout ("Auto-detected a cu_count of " ++ Fmt.str total)%string] |})
    as (w' & tail & Hloop & _ & Hevents & Hruns).
  { intros a Ha. by apply (allocatable_returns hw fuel args total a). }
  { done. }
  exists tail. unfold run_main. rewrite (main_auto hw runner fuel args) by done.
  fold total. rewrite Hloop. cbn [events] in Hevents. by rewrite Hevents.
Qed.

Lemma auto_detected_sweep_witness :
  let hw := {| get_gpc_info := fun _ => [0x0f; 0xf0]; get_tpc_info := fun _ => 8;
               truthy := true |} in
  let args := {| arg_cu_count := Some 0; arg_start_count := 5; arg_stripe := true;
                 arg_device := 0 |} in
  let runner := fun _ : json => Exited 0 in
  exists evs,
    run_main hw runner 2 args
    = (Stdout ("Auto-detected a cu_count of " ++ Fmt.str 8)%string :: evs, Ret tt) /\
    Forall2 (fun a run =>
               exists m,
                 get_cu_mask hw 2 (a + 1) 8 true 0 = Ret m /\
                 run = (generate_config m true,
                        exit_status (runner (generate_config m true))))
            (range 5 8) (runner_runs evs).
Proof.
  cbv zeta.
  apply (auto_detected_sweep
           {| get_gpc_info := fun _ => [0x0f; 0xf0]; get_tpc_info := fun _ => 8;
              truthy := true |}
           (fun _ => Exited 0) 2
           {| arg_cu_count := Some 0; arg_start_count := 5; arg_stripe := true;
              arg_device := 0 |}).
  - reflexivity.
  - reflexivity.
  - right. simpl. repeat split; try done; lia.
  - intros c. discriminate.
Defined.

(** X13. A Runner that cannot be started stops the sweep: the script ends
    with the exception of [subprocess.Popen] at the first step whose Runner
    does not start, after exactly the Runner runs of the steps before it;
    no later step is begun. *)
Theorem launch_failure_stops_sweep (hw : pysmctrl_module) (runner : json -> proc_result)
    (fuel : nat) (args : arguments) (total a0 : Z) :
  arg_cu_count args = Some total -> total <> 0 ->
  arg_stripe args && negb (truthy hw) = false ->
  allocatable hw fuel args total ->
  arg_start_count args <= a0 < total ->
  (forall m,
     get_cu_mask hw fuel (a0 + 1) total (arg_stripe args) (arg_device args) = Ret m ->
     runner (generate_config m (arg_stripe args)) = LaunchFailed) ->
  (forall a m,
     arg_start_count args <= a < a0 ->
     get_cu_mask hw fuel (a + 1) total (arg_stripe args) (arg_device args) = Ret m ->
     runner (generate_config m (arg_stripe args)) <> LaunchFailed) ->
  exists evs,
    run_main hw runner fuel args = (evs, Raise OSError) /\
    length (runner_runs evs) = Z.to_nat (a0 - arg_start_count args).
Proof.
  intros Hcount Hne Hstripe Halloc Ha0 Hfail Hok.
  assert (forall a, arg_start_count args <= a < total ->
            exists m, get_cu_mask hw fuel (a + 1) total (arg_stripe args) (arg_device args)
                      = Ret m) as Hret.
  { intros a Ha. apply (allocatable_returns hw fuel args total a Halloc).
    unfold range. apply list_elem_of_fmap. exists (Z.to_nat (a - arg_start_count args)).
    split; [lia|]. apply list_elem_of_In, in_seq. lia. }
  destruct (Hret a0 Ha0) as [m0 Hm0].
  destruct (sweep_loop_stops hw runner fuel args total
              (range (arg_start_count args) a0) a0 (range (a0 + 1) total)
              {| cu_count := Some total; cu_mask := None; events := prologue hw args total |}
              (Raise OSError)) as (w' & Hloop & Hlen).
  - intros a Ha%range_bounds. destruct (Hret a ltac:(lia)) as [m Hm].
    destruct (runner (generate_config m (arg_stripe args))) as [|status] eqn:Hr.
    + by destruct (Hok a m Ha Hm).
    + eauto.
  - done.
  - intros w1. by apply (sweep_step_launch_failed hw runner fuel args total a0 w1 m0 Hm0), Hfail.
  - exists (events w'). unfold run_main.
    rewrite (main_given hw runner fuel args total) by done.
    rewrite (range_split _ a0 total), (range_cons a0 total) by lia.
    rewrite Hloop. split; [done|].
    cbn [events] in Hlen. by rewrite Hlen, runner_runs_prologue, range_length.
Qed.

Lemma launch_failure_stops_sweep_witness :
  let hw := {| get_gpc_info := fun _ => []; get_tpc_info := fun _ => 8; truthy := true |} in
  let runner := fun c : json =>
    match member "benchmarks" c with
    | Some (JList [entry]) =>
        match member "sm_mask" entry with
        | Some (JStr hex) =>
            if String.eqb hex "fffffffffffffff8" then LaunchFailed else Exited 0
        | _ => Exited 0
        end
    | _ => Exited 0
    end in
  exists evs,
    run_main hw runner 0
      {| arg_cu_count := Some 5; arg_start_count := 0; arg_stripe := false;
         arg_device := 0 |} = (evs, Raise OSError) /\
    length (runner_runs evs) = Z.to_nat (2 - 0).
Proof.
  cbv zeta.
  apply (launch_failure_stops_sweep
           {| get_gpc_info := fun _ => []; get_tpc_info := fun _ => 8; truthy := true |}
           _ 0
           {| arg_cu_count := Some 5; arg_start_count := 0; arg_stripe := false;
              arg_device := 0 |} 5 2).
  - reflexivity.
  - lia.
  - reflexivity.
  - left. reflexivity.
  - simpl. lia.
  - intros m [= <-]. reflexivity.
  - intros a m Ha. simpl in Ha.
    assert (a = 0 \/ a = 1) as [-> | ->] by lia; intros [= <-]; vm_compute; discriminate.
Defined.
(** X14. A striped sweep up to a total above the number of units of the
    topology does not end: it completes the steps that ask for no more units
    than there are, one Runner run each, and at the next step the allocator
    does not return, whatever the fuel beyond one round of the groups.  Here
    the start count is at least 0 and at most the number of units. *)
Theorem striped_sweep_beyond_units (hw : pysmctrl_module) (runner : json -> proc_result)
    (fuel : nat) (args : arguments) (total : Z) :
  arg_cu_count args = Some total -> arg_stripe args = true -> truthy hw = true ->
  get_gpc_info hw (arg_device args) <> [] ->
  forallb is_mask64 (get_gpc_info hw (arg_device args)) = true ->
  (length (get_gpc_info hw (arg_device args)) <= fuel)%nat ->
  0 <= arg_start_count args <= units (get_gpc_info hw (arg_device args)) ->
  units (get_gpc_info hw (arg_device args)) < total ->
  (forall c, runner c <> LaunchFailed) ->
  exists evs,
    run_main hw runner fuel args = (evs, OutOfFuel) /\
    length (runner_runs evs)
    = Z.to_nat (units (get_gpc_info hw (arg_device args)) - arg_start_count args).
Proof.
  intros Hcount Hstripe Htruthy Hne Hwf Hfuel Hstart Htotal Hrun.
  set (topo := get_gpc_info hw (arg_device args)) in *.
  destruct (sweep_loop_stops hw runner fuel args total
              (range (arg_start_count args) (units topo)) (units topo)
              (range (units topo + 1) total)
              {| cu_count := Some total; cu_mask := None; events := prologue hw args total |}
              OutOfFuel) as (w' & Hloop & Hlen).
  - intros a Ha%range_bounds. rewrite Hstripe.
    destruct (get_cu_mask_striped_inv hw fuel (a + 1) total (arg_device args))
      as (p & info' & sel & Hret & _); try done; [fold topo; lia|].
    destruct (runner (generate_config (Z.lnot sel) true)) as [|status] eqn:Hr;
      [by destruct (Hrun _ Hr) | eauto].
  - done.
  - intros w1. apply sweep_step_hangs. rewrite Hstripe.
    apply get_cu_mask_exhausted; try done. fold topo. lia.
  - exists (events w'). unfold run_main.
    rewrite (main_given hw runner fuel args total); try done.
    + rewrite (range_split _ (units topo) total), (range_cons (units topo) total) by lia.
      rewrite Hloop. split; [done|].
      cbn [events] in Hlen. by rewrite Hlen, runner_runs_prologue, range_length.
    + lia.
    + by rewrite Htruthy, andb_false_r.
Qed.

Lemma striped_sweep_beyond_units_witness :
  let hw := {| get_gpc_info := fun _ => [0x0f; 0xf0]; get_tpc_info := fun _ => 8;
               truthy := true |} in
  exists evs,
    run_main hw (fun _ => Exited 0) 2
      {| arg_cu_count := Some 10; arg_start_count := 6; arg_stripe := true;
         arg_device := 0 |} = (evs, OutOfFuel) /\
    length (runner_runs evs) = Z.to_nat (units (get_gpc_info hw 0) - 6).
Proof.
  cbv zeta.
  apply (striped_sweep_beyond_units
           {| get_gpc_info := fun _ => [0x0f; 0xf0]; get_tpc_info := fun _ => 8;
              truthy := true |}
           (fun _ => Exited 0) 2
           {| arg_cu_count := Some 10; arg_start_count := 6; arg_stripe := true;
              arg_device := 0 |} 10).
  - reflexivity.
  - reflexivity.
  - reflexivity.
  - discriminate.
  - reflexivity.
  - simpl. lia.
  - simpl. lia.
  - simpl. lia.
  - intros c. discriminate.
Defined.

(** X15. The one check of the script that stops it: with [--stripe] and a
    [pysmctrl] that tests false, the script prints its message and exits
    with status 1 before the loop, whatever the other arguments; nothing is
    allocated and the Runner is not started. *)
Theorem stripe_without_pysmctrl_exits (hw : pysmctrl_module)
    (runner : json -> proc_result) (fuel : nat) (args : arguments) :
  arg_stripe args = true -> truthy hw = false ->
  snd (run_main hw runner fuel args) = Exit 1 /\
  last (fst (run_main hw runner fuel args))
  = Some (Stdout ("To use accurate striping, pysmctrl must be available and " ++
                  "nvdebug must be loaded")%string) /\
  runner_runs (fst (run_main hw runner fuel args)) = [].
Proof.
  intros Hstripe Htruthy. unfold run_main, main. rewrite Hstripe, Htruthy.
  cbn [andb negb].
  unfold pbind, assign_cu_count, read_cu_count, when, print, emit, pret, lift, fresh.
  destruct (given (arg_cu_count args)); cbn [cu_count cu_mask events app];
    [destruct (default 0 (arg_cu_count args) <=? 0)|];
    cbn [cu_count cu_mask events app fst snd]; repeat split; reflexivity.
Qed.

Lemma stripe_without_pysmctrl_exits_witness :
  let hw := {| get_gpc_info := fun _ => []; get_tpc_info := fun _ => 0; truthy := false |} in
  let args := {| arg_cu_count := Some (-3); arg_start_count := 0; arg_stripe := true;
                 arg_device := 0 |} in
  snd (run_main hw (fun _ => Exited 0) 0 args) = Exit 1 /\
  last (fst (run_main hw (fun _ => Exited 0) 0 args))
  = Some (Stdout ("To use accurate striping, pysmctrl must be available and " ++
                  "nvdebug must be loaded")%string) /\
  runner_runs (fst (run_main hw (fun _ => Exited 0) 0 args)) = [].
Proof.
  cbv zeta.
  apply (stripe_without_pysmctrl_exits
           {| get_gpc_info := fun _ => []; get_tpc_info := fun _ => 0; truthy := false |}
           (fun _ => Exited 0) 0
           {| arg_cu_count := Some (-3); arg_start_count := 0; arg_stripe := true;
              arg_device := 0 |}); reflexivity.
Defined.
(** * Summary values of a result file *)

Module SummaryFacts.
Import Summary.

Section Numbers.

Variable num : Type.
Variable sub : num -> num -> num.
Variable lt : num -> num -> bool.
Variable times_1000 : num -> num.
Variable mean : list num -> num.

Lemma pair_durations_spec (n : nat) : forall (times durations : list num),
  (length times <= n)%nat ->
  pair_durations num sub times durations =
  if Nat.odd (length times) then Err IndexError
  else Ok (durations ++ differences num sub times).
Proof.
  induction n as [|n IH]; intros times durations Hlen.
  - destruct times; [|simpl in Hlen; lia]. simpl. by rewrite app_nil_r.
  - destruct times as [|start [|stop rest]].
    + simpl. by rewrite app_nil_r.
    + reflexivity.
    + cbn [pair_durations differences]. rewrite IH by (simpl in Hlen; lia).
      cbn [length]. rewrite Nat.odd_succ, Nat.even_succ.
      destruct (Nat.odd (length rest)); [done|]. by rewrite <- app_assoc.
Qed.

Lemma collect_durations_spec times_key entries : forall durations,
  collect_durations num sub times_key entries durations =
  if existsb (odd_stamps num times_key) entries then Err IndexError
  else Ok (durations ++ all_durations num sub times_key entries).
Proof.
  induction entries as [|t entries IH]; intros durations.
  - simpl. by rewrite app_nil_r.
  - cbn [collect_durations existsb all_durations flat_map].
    unfold odd_stamps at 1, stamps.
    destruct (lookup_key num times_key t) as [times|].
    + rewrite (pair_durations_spec (length times)) by lia.
      destruct (Nat.odd (length times)); [done|]. rewrite IH. cbn [orb].
      destruct (existsb _ entries); [done|]. by rewrite <- app_assoc.
    + rewrite IH. cbn [length Nat.odd Nat.even negb orb app].
      by destruct (existsb _ entries).
Qed.

Hypothesis lt_irrefl : forall x, lt x x = false.
Hypothesis lt_trans : forall x y z, lt x y = true -> lt y z = true -> lt x z = true.

Lemma lt_asym x y : lt x y = true -> lt y x = false.
Proof.
  intros H. destruct (lt y x) eqn:E; [|done].
  pose proof (lt_irrefl x) as I. by rewrite (lt_trans _ _ _ H E) in I.
Qed.

Lemma fold_min_spec rest : forall best m,
  fold_left (fun best y => if lt y best then y else best) rest best = m ->
  (m = best \/ (In m rest /\ lt m best = true)) /\
  forall y, In y rest -> lt y m = false.
Proof.
  induction rest as [|y rest IH]; intros best m Hm; cbn [fold_left] in Hm.
  - subst m. split; [by left | intros y []].
  - destruct (lt y best) eqn:Hy.
    + destruct (IH y m Hm) as (Hin & Hrest). split.
      * right. destruct Hin as [->|[Hin Hlt]]; [split; [by left | done]|].
        split; [by right | by apply (lt_trans _ y)].
      * intros z [<-|Hz]; [|by apply Hrest].
        destruct Hin as [->|[_ Hlt]]; [apply lt_irrefl | by apply lt_asym].
    + destruct (IH best m Hm) as (Hin & Hrest). split.
      * destruct Hin as [->|[Hin Hlt]]; [by left | right; split; [by right | done]].
      * intros z [<-|Hz]; [|by apply Hrest].
        destruct Hin as [->|[_ Hlt]]; [done|].
        destruct (lt y m) eqn:E; [|done]. by rewrite (lt_trans _ _ _ E Hlt) in Hy.
Qed.

Lemma fold_max_spec rest : forall best m,
  fold_left (fun best y => if lt best y then y else best) rest best = m ->
  (m = best \/ (In m rest /\ lt best m = true)) /\
  forall y, In y rest -> lt m y = false.
Proof.
  induction rest as [|y rest IH]; intros best m Hm; cbn [fold_left] in Hm.
  - subst m. split; [by left | intros y []].
  - destruct (lt best y) eqn:Hy.
    + destruct (IH y m Hm) as (Hin & Hrest). split.
      * right. destruct Hin as [->|[Hin Hlt]]; [split; [by left | done]|].
        split; [by right | by apply (lt_trans _ y)].
      * intros z [<-|Hz]; [|by apply Hrest].
        destruct Hin as [->|[_ Hlt]]; [apply lt_irrefl | by apply lt_asym].
    + destruct (IH best m Hm) as (Hin & Hrest). split.
      * destruct Hin as [->|[Hin Hlt]]; [by left | right; split; [by right | done]].
      * intros z [<-|Hz]; [|by apply Hrest].
        destruct Hin as [->|[_ Hlt]]; [done|].
        destruct (lt m y) eqn:E; [|done]. by rewrite (lt_trans _ _ _ Hlt E) in Hy.
Qed.

Lemma py_min_spec xs :
  xs <> [] ->
  exists m, py_min num lt xs = Ok m /\ In m xs /\ forall y, In y xs -> lt y m = false.
Proof.
  destruct xs as [|x rest]; [done|]. intros _. eexists. split; [reflexivity|].
  destruct (fold_min_spec rest x _ eq_refl) as (Hin & Hrest). split.
  - destruct Hin as [->|[Hin _]]; [by left | by right].
  - intros y [<-|Hy]; [|by apply Hrest].
    destruct Hin as [->|[_ Hlt]]; [apply lt_irrefl | by apply lt_asym].
Qed.

Lemma py_max_spec xs :
  xs <> [] ->
  exists m, py_max num lt xs = Ok m /\ In m xs /\ forall y, In y xs -> lt m y = false.
Proof.
  destruct xs as [|x rest]; [done|]. intros _. eexists. split; [reflexivity|].
  destruct (fold_max_spec rest x _ eq_refl) as (Hin & Hrest). split.
  - destruct Hin as [->|[Hin _]]; [by left | by right].
  - intros y [<-|Hy]; [|by apply Hrest].
    destruct Hin as [->|[_ Hlt]]; [apply lt_irrefl | by apply lt_asym].
Qed.

End Numbers.

End SummaryFacts.

(** X16. What [plugin_summary_values] comes to, whatever the numbers are: an
    [IndexError] when some entry has an odd number of timestamps under the
    key; otherwise a [ValueError], from [min], when the entries have no
    timestamp under the key; otherwise the three values, in milliseconds,
    of the least, the greatest and the mean of the durations, the durations
    being stop minus start for each pair of timestamps, in the order of the
    file. *)
Theorem summary_values_outcome (num : Type) (sub : num -> num -> num)
    (lt : num -> num -> bool) (times_1000 : num -> num) (mean : list num -> num)
    (plugin_times : list (Summary.entry num)) (times_key : string) :
  Summary.plugin_summary_values num sub lt times_1000 mean plugin_times times_key =
  if existsb (Summary.odd_stamps num times_key) plugin_times then
    Summary.Err Summary.IndexError
  else
    match Summary.all_durations num sub times_key plugin_times with
    | [] => Summary.Err Summary.ValueError
    | first :: rest =>
        Summary.Ok
          [ times_1000 (fold_left (fun best y => if lt y best then y else best) rest first);
            times_1000 (fold_left (fun best y => if lt best y then y else best) rest first);
            times_1000 (mean (first :: rest)) ]
    end.
Proof.
  unfold Summary.plugin_summary_values.
  rewrite SummaryFacts.collect_durations_spec. cbn [app].
  destruct (existsb _ plugin_times); [reflexivity|].
  by destruct (Summary.all_durations num sub times_key plugin_times).
Qed.

(** X17. However many entries a result file has, when none of them has the
    key [plugin_summary_values] fails with the [ValueError] of [min] on no
    duration. *)
Theorem summary_values_without_key (num : Type) (sub : num -> num -> num)
    (lt : num -> num -> bool) (times_1000 : num -> num) (mean : list num -> num)
    (plugin_times : list (Summary.entry num)) (times_key : string) :
  Forall (fun t => Summary.lookup_key num times_key t = None) plugin_times ->
  Summary.plugin_summary_values num sub lt times_1000 mean plugin_times times_key
  = Summary.Err Summary.ValueError.
Proof.
  intros Hnone. unfold Summary.plugin_summary_values.
  rewrite SummaryFacts.collect_durations_spec. cbn [app].
  induction Hnone as [|t entries Ht _ IH]; [reflexivity|].
  cbn [existsb Summary.all_durations flat_map].
  unfold Summary.odd_stamps at 1, Summary.stamps. rewrite Ht. exact IH.
Qed.

Lemma summary_values_without_key_witness :
  Summary.plugin_summary_values Z Z.sub Z.ltb (Z.mul 1000) (fun _ => 0)
    [ []; [("cpu_times"%string, [1; 5])]; [("cpu_times"%string, [6; 8])] ]
    "execute_times"
  = Summary.Err Summary.ValueError.
Proof.
  apply summary_values_without_key. repeat constructor.
Defined.

(** X18. When no entry has an odd number of timestamps under the key and
    there is at least one duration, [plugin_summary_values] returns three
    values; the first comes from a duration that no duration is less than,
    the second from a duration that is less than no duration.  The
    comparison is only taken to be irreflexive and transitive. *)
Theorem summary_values_bounds (num : Type) (sub : num -> num -> num)
    (lt : num -> num -> bool) (times_1000 : num -> num) (mean : list num -> num)
    (plugin_times : list (Summary.entry num)) (times_key : string) :
  (forall x, lt x x = false) ->
  (forall x y z, lt x y = true -> lt y z = true -> lt x z = true) ->
  existsb (Summary.odd_stamps num times_key) plugin_times = false ->
  Summary.all_durations num sub times_key plugin_times <> [] ->
  exists least greatest,
    Summary.plugin_summary_values num sub lt times_1000 mean plugin_times times_key
    = Summary.Ok [ times_1000 least; times_1000 greatest;
                   times_1000 (mean (Summary.all_durations num sub times_key plugin_times)) ] /\
    In least (Summary.all_durations num sub times_key plugin_times) /\
    In greatest (Summary.all_durations num sub times_key plugin_times) /\
    forall d, In d (Summary.all_durations num sub times_key plugin_times) ->
              lt d least = false /\ lt greatest d = false.
Proof.
  intros Hirr Htrans Hodd Hne.
  destruct (SummaryFacts.py_min_spec num lt Hirr Htrans _ Hne) as (lo & Hmin & Hlo & Hlow).
  destruct (SummaryFacts.py_max_spec num lt Hirr Htrans _ Hne) as (hi & Hmax & Hhi & Hhigh).
  exists lo, hi. unfold Summary.plugin_summary_values.
  rewrite SummaryFacts.collect_durations_spec, Hodd. cbn [app].
  rewrite Hmin, Hmax. repeat split; try done; eauto.
Qed.

Lemma summary_values_bounds_witness :
  let times := [ []; [("execute_times"%string, [10; 14; 20; 21])];
                 [("execute_times"%string, [30; 39])] ] in
  exists least greatest,
    Summary.plugin_summary_values Z Z.sub Z.ltb (Z.mul 1000) (fun _ => 0) times
      "execute_times"
    = Summary.Ok [ 1000 * least; 1000 * greatest;
                   1000 * (fun _ => 0)
                            (Summary.all_durations Z Z.sub "execute_times" times) ] /\
    In least (Summary.all_durations Z Z.sub "execute_times" times) /\
    In greatest (Summary.all_durations Z Z.sub "execute_times" times) /\
    forall d, In d (Summary.all_durations Z Z.sub "execute_times" times) ->
              (d <? least) = false /\ (greatest <? d) = false.
Proof.
  cbv zeta.
  apply (summary_values_bounds Z Z.sub Z.ltb (Z.mul 1000) (fun _ => 0)).
  - intros x. apply Z.ltb_irrefl.
  - intros x y z Hxy Hyz. apply Z.ltb_lt in Hxy, Hyz. apply Z.ltb_lt. lia.
  - reflexivity.
  - discriminate.
Defined.
